(** * wptc-reverts: the recent-change handler of [src/index.ts]

    A shallow embedding of the listener that [WPTCReverts.start] registers
    on the [mediawiki.recentchange] stream, together with the part of the
    ECMAScript runtime it relies on (strings as sequences of UTF-16 code
    units, backtracking regular expressions, [String.prototype.replace]
    with its [$] substitutions, [String.prototype.substr]). *)

From Stdlib Require Import String Ascii Decimal.
From Stdlib Require Import NArith ZArith Bool Lia List.
Import ListNotations.
Open Scope list_scope.

(** ** ECMAScript strings and regular expressions *)
Module JS.

(** A JavaScript string is a sequence of 16-bit code units; [length] is
    the [.length] property. *)
Definition code_unit := N.
Definition jsstring := list code_unit.

(** A string literal of the source (ASCII text). *)
Definition js (s : string) : jsstring :=
  map N_of_ascii (list_ascii_of_string s).

(** The double quote, which the templates embed. *)
Definition dquote : code_unit := 34%N.

Fixpoint str_eqb (a b : jsstring) : bool :=
  match a, b with
  | [], [] => true
  | x :: a', y :: b' => N.eqb x y && str_eqb a' b'
  | _, _ => false
  end.

(** [startsWith p s]: [p] is a prefix of [s]. *)
Fixpoint startsWith (p s : jsstring) : bool :=
  match p with
  | [] => true
  | x :: p' =>
      match s with
      | [] => false
      | y :: s' => N.eqb x y && startsWith p' s'
      end
  end.

(** [String.prototype.includes]. *)
Fixpoint String_includes (s p : jsstring) : bool :=
  startsWith p s ||
  match s with
  | [] => false
  | _ :: s' => String_includes s' p
  end.

(** [endsWith s p]: [p] is a suffix of [s]. *)
Fixpoint endsWith (s p : jsstring) : bool :=
  str_eqb s p ||
  match s with
  | [] => false
  | _ :: s' => endsWith s' p
  end.

(** [Array.prototype.includes] on an array of strings. *)
Definition Array_includes (a : list jsstring) (x : jsstring) : bool :=
  existsb (str_eqb x) a.

(** [String.prototype.substr(start, length)] at [start = 0]: the length
    is clamped to [0 .. s.length]. *)
Definition substr0 (s : jsstring) (len : Z) : jsstring :=
  firstn (Z.to_nat (Z.min (Z.max len 0) (Z.of_nat (length s)))) s.

(** [String.prototype.repeat]. *)
Definition String_repeat (s : jsstring) (n : nat) : jsstring :=
  concat (repeat s n).

(** Number-to-string conversion of a non-negative integer. *)
Fixpoint digits_of_uint (d : Decimal.uint) : jsstring :=
  match d with
  | Nil => []
  | D0 d' => 48%N :: digits_of_uint d'
  | D1 d' => 49%N :: digits_of_uint d'
  | D2 d' => 50%N :: digits_of_uint d'
  | D3 d' => 51%N :: digits_of_uint d'
  | D4 d' => 52%N :: digits_of_uint d'
  | D5 d' => 53%N :: digits_of_uint d'
  | D6 d' => 54%N :: digits_of_uint d'
  | D7 d' => 55%N :: digits_of_uint d'
  | D8 d' => 56%N :: digits_of_uint d'
  | D9 d' => 57%N :: digits_of_uint d'
  end.

Definition toString (n : N) : jsstring := digits_of_uint (N.to_uint n).

(** *** Regular expressions

    The syntax covers what the patterns of the source use.  Quantifiers
    [+] and [+?] are only ever applied to a one-character atom there, so
    [Plus] takes an atom and the matcher recurses on the input. *)

Inductive atom : Type :=
| AChar (c : code_unit)          (* a pattern character *)
| ADot                           (* .  *)
| ADigit                         (* \d *)
| AClass (cs : list code_unit).  (* [...] *)

Inductive regex : Type :=
| Empty
| Atom (a : atom)
| AssertStart                    (* ^ *)
| AssertEnd                      (* $ *)
| Seq (r1 r2 : regex)
| Alt (r1 r2 : regex)            (* r1|r2 *)
| Group (r : regex)              (* (r) *)
| Opt (r : regex)                (* r? *)
| Plus (a : atom) (greedy : bool). (* a+ and a+? *)

(** A run of pattern characters. *)
Fixpoint Lit (p : jsstring) : regex :=
  match p with
  | [] => Empty
  | c :: p' => Seq (Atom (AChar c)) (Lit p')
  end.

(** Canonicalize of ECMA-262, without the [u] flag: with
    [ignoreCase] a code unit is compared through its upper-case form.
    The patterns only hold ASCII letters, and a code unit outside ASCII
    never canonicalizes to an ASCII one, so folding [a-z] is exact for
    them. *)
Definition canonicalize (ic : bool) (c : code_unit) : code_unit :=
  if ic && N.leb 97 c && N.leb c 122 then (c - 32)%N else c.

(** Line terminators: LF, CR, LS, PS. *)
Definition isLineTerminator (c : code_unit) : bool :=
  N.eqb c 10 || N.eqb c 13 || N.eqb c 8232 || N.eqb c 8233.

Definition atom_matches (ic : bool) (a : atom) (c : code_unit) : bool :=
  match a with
  | AChar x => N.eqb (canonicalize ic x) (canonicalize ic c)
  | ADot => negb (isLineTerminator c)
  | ADigit => N.leb 48 c && N.leb c 57
  | AClass cs =>
      existsb (fun x => N.eqb (canonicalize ic x) (canonicalize ic c)) cs
  end.

(** The matcher is written in continuation-passing style, as the one
    of ECMA-262: a position is the index [i] and the input left from
    it; a successful match yields the end position. *)
Definition position : Type := (nat * jsstring)%type.
Definition continuation : Type := nat -> jsstring -> option position.

Fixpoint plus_greedy (p : code_unit -> bool) (k : continuation)
    (i : nat) (s : jsstring) : option position :=
  match s with
  | [] => None
  | c :: s' =>
      if p c then
        match plus_greedy p k (S i) s' with
        | Some z => Some z
        | None => k (S i) s'
        end
      else None
  end.

Fixpoint plus_lazy (p : code_unit -> bool) (k : continuation)
    (i : nat) (s : jsstring) : option position :=
  match s with
  | [] => None
  | c :: s' =>
      if p c then
        match k (S i) s' with
        | Some z => Some z
        | None => plus_lazy p k (S i) s'
        end
      else None
  end.

Fixpoint rmatch (ic : bool) (r : regex) (k : continuation)
    (i : nat) (s : jsstring) {struct r} : option position :=
  match r with
  | Empty => k i s
  | Atom a =>
      match s with
      | [] => None
      | c :: s' => if atom_matches ic a c then k (S i) s' else None
      end
  | AssertStart => if Nat.eqb i 0 then k i s else None
  | AssertEnd => match s with [] => k i s | _ :: _ => None end
  | Seq r1 r2 => rmatch ic r1 (rmatch ic r2 k) i s
  | Alt r1 r2 =>
      match rmatch ic r1 k i s with
      | Some z => Some z
      | None => rmatch ic r2 k i s
      end
  | Group r1 => rmatch ic r1 k i s
  | Opt r1 =>
      (* an iteration that matches the empty string is rejected *)
      match rmatch ic r1
              (fun j t => if Nat.eqb j i then None else k j t) i s with
      | Some z => Some z
      | None => k i s
      end
  | Plus a true => plus_greedy (atom_matches ic a) k i s
  | Plus a false => plus_lazy (atom_matches ic a) k i s
  end.

(** One match attempt at position [i]. *)
Definition match_at (ic : bool) (r : regex) (i : nat) (s : jsstring)
  : option position :=
  rmatch ic r (fun j t => Some (j, t)) i s.

(** The loop of RegExpBuiltinExec: the first position from [i] on at
    which the pattern matches, with the end of the match. *)
Fixpoint search (ic : bool) (r : regex) (i : nat) (s : jsstring)
  : option (nat * position) :=
  match match_at ic r i s with
  | Some e => Some (i, e)
  | None =>
      match s with
      | [] => None
      | _ :: s' => search ic r (S i) s'
      end
  end.

(** A RegExp object: pattern, the flags [g] and [i], and the mutable
    [lastIndex]. *)
Record RegExp : Type := mkRegExp {
  source : regex;
  global : bool;
  ignoreCase : bool;
  lastIndex : nat
}.

(** Evaluating a regular expression literal, or [new RegExp(source,
    flags)]: a fresh object with [lastIndex = 0]. *)
Definition new_RegExp (src : regex) (g ic : bool) : RegExp :=
  mkRegExp src g ic 0.

Definition set_lastIndex (R : RegExp) (n : nat) : RegExp :=
  mkRegExp (source R) (global R) (ignoreCase R) n.

(** [RegExp.prototype.test]: a global pattern starts at [lastIndex] and
    leaves the end of the match there, or [0] on failure. *)
Definition RegExp_test (R : RegExp) (s : jsstring) : bool * RegExp :=
  let start := if global R then lastIndex R else 0 in
  if Nat.ltb (length s) start then
    (false, if global R then set_lastIndex R 0 else R)
  else
    match search (ignoreCase R) (source R) start (skipn start s) with
    | Some (_, (e, _)) => (true, if global R then set_lastIndex R e else R)
    | None => (false, if global R then set_lastIndex R 0 else R)
    end.

(** [Array.prototype.some(v => v.test(s))] over an array of RegExp
    objects: stops at the first that matches; the objects tested are
    left mutated. *)
Fixpoint Array_some_test (a : list RegExp) (s : jsstring)
  : bool * list RegExp :=
  match a with
  | [] => (false, [])
  | v :: a' =>
      let (b, v') := RegExp_test v s in
      if b then (true, v' :: a')
      else let (b', a'') := Array_some_test a' s in (b', v' :: a'')
  end.

(** GetSubstitution for a pattern without capture groups: [$$], [$&],
    [$`] and [$'] are expanded; any other [$] stands for itself. *)
Fixpoint getSubstitution (matched pre post repl : jsstring) : jsstring :=
  match repl with
  | [] => []
  | c :: r =>
      if N.eqb c 36 then
        match r with
        | [] => [c]
        | d :: r' =>
            if N.eqb d 36 then 36%N :: getSubstitution matched pre post r'
            else if N.eqb d 38 then matched ++ getSubstitution matched pre post r'
            else if N.eqb d 96 then pre ++ getSubstitution matched pre post r'
            else if N.eqb d 39 then post ++ getSubstitution matched pre post r'
            else c :: getSubstitution matched pre post r
        end
      else c :: getSubstitution matched pre post r
  end.

(** [String.prototype.replace] with a global pattern, as one pass over
    the input: [pre] is the input before the current position, [skip]
    the number of code units of the last match still to pass over.  After
    an empty match the search resumes one code unit further. *)
Fixpoint replace_scan (ic : bool) (r : regex) (repl : jsstring)
    (pre : jsstring) (skip : nat) (s : jsstring) : jsstring :=
  match skip with
  | S skip' =>
      match s with
      | [] => []
      | c :: s' => replace_scan ic r repl (pre ++ [c]) skip' s'
      end
  | O =>
      match match_at ic r (length pre) s with
      | Some (e, post) =>
          let n := e - length pre in
          getSubstitution (firstn n s) pre post repl ++
          match s with
          | [] => []
          | c :: s' =>
              if Nat.eqb n 0
              then c :: replace_scan ic r repl (pre ++ [c]) 0 s'
              else replace_scan ic r repl (pre ++ [c]) (n - 1) s'
          end
      | None =>
          match s with
          | [] => []
          | c :: s' => c :: replace_scan ic r repl (pre ++ [c]) 0 s'
          end
      end
  end.

(** [String.prototype.replace(R, repl)]; without the [g] flag only the
    first match is replaced. *)
Definition String_replace (s : jsstring) (R : RegExp) (repl : jsstring)
  : jsstring :=
  if global R then replace_scan (ignoreCase R) (source R) repl [] 0 s
  else
    match search (ignoreCase R) (source R) 0 s with
    | Some (b, (e, post)) =>
        firstn b s ++
        getSubstitution (firstn (e - b) (skipn b s)) (firstn b s) post repl ++
        post
    | None => s
    end.

(** *** Values

    What a field of a record received from a stream can hold, apart from
    arrays and objects: [VUndefined] is what reading a missing field
    gives.  The listener compares a number, tests it for membership or
    converts it to a string, and nothing else, so a number is given by
    the string that [ToString] yields for it. *)
Inductive value : Type :=
| VUndefined
| VNull
| VBoolean (b : bool)
| VNumber (shown : jsstring)
| VString (s : jsstring).

(** [ToString], as a template literal and [replace] apply it. *)
Definition ToString (v : value) : jsstring :=
  match v with
  | VUndefined => js "undefined"
  | VNull => js "null"
  | VBoolean true => js "true"
  | VBoolean false => js "false"
  | VNumber shown => shown
  | VString s => s
  end.

(** [v === s] for a string [s]: no conversion takes place. *)
Definition strictly_equals (v : value) (s : jsstring) : bool :=
  match v with
  | VString t => str_eqb t s
  | _ => false
  end.

(** [a.includes(v)] for an array [a] of strings. *)
Definition Array_includes_value (a : list jsstring) (v : value) : bool :=
  match v with
  | VString t => Array_includes a t
  | _ => false
  end.

(** *** The store

    RegExp objects are mutable and are reached through references.  A
    regular expression literal, like [new RegExp], creates a new object
    each time it is evaluated; the objects created earlier stay in the
    store as they were left. *)
Definition reference : Type := nat.

Definition store : Type := list RegExp.

Definition allocate (h : store) (R : RegExp) : store * reference :=
  (h ++ [R], length h).

Fixpoint allocate_all (h : store) (Rs : list RegExp)
  : store * list reference :=
  match Rs with
  | [] => (h, [])
  | R :: Rs' =>
      let (h1, r) := allocate h R in
      let (h2, rs) := allocate_all h1 Rs' in
      (h2, r :: rs)
  end.

(** The object a reference leads to.  Every reference comes from
    [allocate], so the default is never read. *)
Definition deref (h : store) (r : reference) : RegExp :=
  nth r h (new_RegExp Empty false false).

Fixpoint assign (h : store) (r : reference) (R : RegExp) : store :=
  match h, r with
  | [], _ => []
  | _ :: h', O => R :: h'
  | x :: h', S r' => x :: assign h' r' R
  end.

(** [r.test(s)] on the object behind [r]: the object is left with its
    new [lastIndex]. *)
Definition test_at (h : store) (r : reference) (s : jsstring)
  : store * bool :=
  let (b, R') := RegExp_test (deref h r) s in (assign h r R', b).

(** [a.some(v => v.test(s))] over an array of references. *)
Fixpoint some_test_at (h : store) (a : list reference) (s : jsstring)
  : store * bool :=
  match a with
  | [] => (h, false)
  | v :: a' =>
      let (h', b) := test_at h v s in
      if b then (h', true) else some_test_at h' a' s
  end.

(** [s.replace(r, repl)] on the object behind [r]: a global pattern has
    its [lastIndex] set to [0] before the first search and is left with
    [0]. *)
Definition replace_at (h : store) (s : jsstring) (r : reference)
    (repl : jsstring) : store * jsstring :=
  let R := deref h r in
  (if global R then assign h r (set_lastIndex R 0) else h,
   String_replace s R repl).

(** Patterns that begin with a run of characters [p]: they cannot match
    where [p] is no prefix. *)
Definition lit_headed (p : jsstring) (r : regex) : Prop :=
  forall i s, startsWith p s = false -> match_at false r i s = None.

End JS.

(** ** The bot *)
Module WPTCReverts.
Import JS.

Definition chr (a : ascii) : code_unit := N_of_ascii a.

Notation "r1 ;; r2" := (Seq r1 r2) (at level 61, right associativity).

(** The message templates (static fields of the class). *)
Definition TWEET_URL : jsstring :=
  js "https://en.wikipedia.org/wiki/Special:Diff/{{{diff}}}".

Definition TWEET_TEXT : jsstring :=
  js "New revert by {{{user}}} on " ++ [dquote] ++ js "{{{title}}}" ++
  [dquote] ++ js ": " ++ [dquote] ++ js "{{{summary}}}" ++ [dquote] ++
  js " " ++ TWEET_URL.

Definition TWEET_TEXT_EMPTY : jsstring :=
  js "New revert by {{{user}}} on " ++ [dquote] ++ js "{{{title}}}" ++
  [dquote] ++ js " with no given reason. " ++ TWEET_URL.

(** A record of the [mediawiki.recentchange] stream, as far as the
    listener reads it, with its fields of the types that the schema of
    the stream announces: strings, and a number for [revision], which
    stands for [change.revision.new].  The listener calls a method on
    [comment] and reads a property of [revision], which raises a
    TypeError when the field is missing: these two are optional here.
    A record whose fields are of other types is a [Wire.change],
    below. *)
Record RecentChange : Type := mkChange {
  wiki : jsstring;
  type : jsstring;
  title : jsstring;
  user : jsstring;
  comment : option jsstring;
  parsedcomment : jsstring;
  revision : option N
}.

(** The part of [this] the listener touches: the monitored pages, the
    lines given to [this.log.info] and the texts given to
    [this.twitter.v1.tweet], oldest first. *)
Record Bot : Type := mkBot {
  pages : list jsstring;
  log : list jsstring;
  twitter : list jsstring
}.

(** What the listener can raise: the TypeError of the language, for a
    property read from [undefined] or [null] and for a call of what is no
    function, and the error of another kind that a library may raise. *)
Inductive exception : Type :=
| TypeError
| Error.

Inductive completion (A : Type) : Type :=
| Normal (a : A)
| Throw (e : exception).
Arguments Normal {A} a.
Arguments Throw {A} e.

(** What the listener has decided when it reaches the notification: it
    has returned early, or it goes on with the stripped summary. *)
Inductive ClassificationResult : Type :=
| NotQualifying
| Qualifying (reason : jsstring).

(** [/rv[vd]|vand(alism)?/gi] *)
Definition vandalism_keywords : RegExp :=
  new_RegExp
    (Alt (Lit (js "rv") ;; Atom (AClass (js "vd")))
         (Lit (js "vand") ;; Opt (Group (Lit (js "alism")))))
    true true.

(** The four signature patterns, named after the comments of the
    source. *)

(** Rollback:
    [/^Reverted \d+ edits? by .+? \(talk\) to last version by .+? \(talk\)/g] *)
Definition sig_Rollback : regex :=
  AssertStart ;; Lit (js "Reverted ") ;; Plus ADigit true ;;
  Lit (js " edit") ;; Opt (Atom (AChar (chr "s"))) ;; Lit (js " by ") ;;
  Plus ADot false ;; Lit (js " (talk) to last version by ") ;;
  Plus ADot false ;; Lit (js " (talk)").

(** Undo: [/^Undid revision .+? by .+? \(talk\) ?/g] *)
Definition sig_Undo : regex :=
  AssertStart ;; Lit (js "Undid revision ") ;; Plus ADot false ;;
  Lit (js " by ") ;; Plus ADot false ;; Lit (js " (talk)") ;;
  Opt (Atom (AChar (chr " "))).

(** RedWarn: [/^Reverting edit\(s\) by .+ to rev. .+ \d+ by .+?(: ?)?/g];
    the dot after [rev] is not escaped. *)
Definition sig_RedWarn : regex :=
  AssertStart ;; Lit (js "Reverting edit(s) by ") ;; Plus ADot true ;;
  Lit (js " to rev") ;; Atom ADot ;; Lit (js " ") ;; Plus ADot true ;;
  Lit (js " ") ;; Plus ADigit true ;; Lit (js " by ") ;;
  Plus ADot false ;;
  Opt (Group (Lit (js ":") ;; Opt (Atom (AChar (chr " "))))).

(** Twinkle: [/^Reverted \d+ edits? by .+ (talk)(: ?|$)/g]; the
    parentheses around [talk] are not escaped, so they form a group. *)
Definition sig_Twinkle : regex :=
  AssertStart ;; Lit (js "Reverted ") ;; Plus ADigit true ;;
  Lit (js " edit") ;; Opt (Atom (AChar (chr "s"))) ;; Lit (js " by ") ;;
  Plus ADot true ;; Lit (js " ") ;; Group (Lit (js "talk")) ;;
  Group (Alt (Lit (js ":") ;; Opt (Atom (AChar (chr " ")))) AssertEnd).

(** The array [signatures], built anew at every call of the listener. *)
Definition signatures : list RegExp := [
  new_RegExp sig_Rollback true false;
  new_RegExp sig_Undo true false;
  new_RegExp sig_RedWarn true false;
  new_RegExp sig_Twinkle true false
].

(** [/ ?\(talk\)/g] *)
Definition talk_links : RegExp :=
  new_RegExp (Opt (Atom (AChar (chr " "))) ;; Lit (js "(talk)")) true false.

(** The placeholders of the templates and [/https:.+$/g]. *)
Definition re_user : RegExp := new_RegExp (Lit (js "{{{user}}}")) true false.
Definition re_title : RegExp := new_RegExp (Lit (js "{{{title}}}")) true false.
Definition re_summary : RegExp :=
  new_RegExp (Lit (js "{{{summary}}}")) true false.
Definition re_diff : RegExp := new_RegExp (Lit (js "{{{diff}}}")) true false.
Definition re_https : RegExp :=
  new_RegExp (Lit (js "https:") ;; Plus ADot true ;; AssertEnd) true false.

(** The loop over [signatures] and the removal of the talk links
    (lines 95-102).  Each pattern is rebuilt from its source and flags
    before it is used. *)
Definition strippedSummary (sigs : list RegExp) (summary : jsstring)
  : jsstring :=
  String_replace
    (fold_left
       (fun acc sig =>
          String_replace acc
            (new_RegExp (source sig) (global sig) (ignoreCase sig)) [])
       sigs summary)
    talk_links [].

(** The strip rules applied to a summary, with the array as the
    listener first builds it. *)
Definition stripAll (summary : jsstring) : jsstring :=
  strippedSummary signatures summary.

(** [280 - TWEET_TEXT.replace(...)....length] (lines 109-113). *)
Definition nonSummaryLength (user title : jsstring) : Z :=
  280 -
  Z.of_nat
    (length
       (String_replace
          (String_replace
             (String_replace
                (String_replace TWEET_TEXT re_user user)
                re_title title)
             re_summary [])
          re_https (String_repeat (js "-") 24))).

(** The text given to [tweet] (lines 108-129). *)
Definition tweet_text (user title : jsstring) (rev : N)
    (stripped : jsstring) : jsstring :=
  if Nat.ltb 0 (length stripped) then
    String_replace
      (String_replace
         (String_replace
            (String_replace TWEET_TEXT re_user user)
            re_title title)
         re_summary (substr0 stripped (nonSummaryLength user title)))
      re_diff (toString rev)
  else
    String_replace
      (String_replace
         (String_replace TWEET_TEXT_EMPTY re_user user)
         re_title title)
      re_diff (toString rev).

Section Listener.

(** [cheerio.load(html)] followed by [$.root().text()]: the text content
    of a rendered comment.  The library is not part of the repository. *)
Variable rootText : jsstring -> jsstring.

(** Lines 68-102: the early returns, then the stripped summary. *)
Definition classify (monitored : list jsstring) (change : RecentChange)
  : completion ClassificationResult :=
  if negb (str_eqb (wiki change) (js "enwiki")) ||
     negb (str_eqb (type change) (js "edit"))
  then Normal NotQualifying
  else if negb (Array_includes monitored (title change))
  then Normal NotQualifying
  else
    match comment change with
    | None => Throw TypeError
    | Some c =>
        if String_includes c (js "([[WP:HG|HG]])") ||
           str_eqb (user change) (js "ClueBot NG")
        then Normal NotQualifying
        else if fst (RegExp_test vandalism_keywords c)
        then Normal NotQualifying
        else
          let summary := rootText (parsedcomment change) in
          let (found, sigs) := Array_some_test signatures summary in
          if negb found then Normal NotQualifying
          else Normal (Qualifying (strippedSummary sigs summary))
    end.

(** The listener of [mediawiki.recentchange] (lines 67-130). *)
Definition on_recentchange (bot : Bot) (change : RecentChange)
  : Bot * completion unit :=
  match classify (pages bot) change with
  | Throw e => (bot, Throw e)
  | Normal NotQualifying => (bot, Normal tt)
  | Normal (Qualifying stripped) =>
      match revision change with
      | None => (bot, Throw TypeError)
      | Some rev =>
          let line :=
            js "Found new edit by " ++ user change ++ js " (" ++
            toString rev ++ js "): " ++ rootText (parsedcomment change) in
          (mkBot (pages bot) (log bot ++ [line])
                 (twitter bot ++
                  [tweet_text (user change) (title change) rev stripped]),
           Normal tt)
      end
  end.

(** The listener called on a sequence of events, one after the other. *)
Definition emit_all (bot : Bot) (changes : list RecentChange) : Bot :=
  fold_left (fun b change => fst (on_recentchange b change)) changes bot.

End Listener.

(** Text that the template substitutions copy as it is: it holds
    neither a dollar sign, which [replace] would expand, nor a brace,
    which could form a placeholder. *)
Definition plain (s : jsstring) : Prop :=
  ~ In (chr "$") s /\ ~ In (chr "{") s.

(** The form of a Twinkle summary: the reverted user is followed by a
    parenthesised talk link, then by the reason. *)
Definition twinkle_summary (n : N) (plural : bool) (who reason : jsstring)
  : jsstring :=
  js "Reverted " ++ toString n ++
  (if plural then js " edits" else js " edit") ++
  js " by " ++ who ++ js " (talk): " ++ reason.

(** The link a notification ends with. *)
Definition diff_link (rev : N) : jsstring :=
  js "https://en.wikipedia.org/wiki/Special:Diff/" ++ toString rev.

(** Text that [.] accepts throughout: it holds no line terminator. *)
Definition oneLine (s : jsstring) : Prop :=
  forallb (fun c => negb (isLineTerminator c)) s = true.

(** A run of decimal digits, not empty. *)
Definition digits (s : jsstring) : Prop :=
  s <> [] /\ forallb (fun c => N.leb 48 c && N.leb c 57) s = true.

(** The summary of an undo: revision, reverted user with the talk link,
    then the reason. *)
Definition undo_summary (rev who reason : jsstring) : jsstring :=
  js "Undid revision " ++ rev ++ js " by " ++ who ++ js " (talk)" ++
  chr " " :: reason.

(** The summary of a rollback, with whatever follows the second talk
    link. *)
Definition rollback_summary (n : jsstring) (plural : bool)
    (who last rest : jsstring) : jsstring :=
  js "Reverted " ++ n ++ js " edit" ++
  (if plural then [chr "s"] else []) ++ js " by " ++ who ++
  js " (talk) to last version by " ++ last ++ js " (talk)" ++ rest.


(** *** [getPages] (lines 133 to 150)

    The responses of [continuedQuery], as far as [getPages] reads them.
    A field that may be missing is optional: [query_pages] is
    [q.query["pages"]] (an array, with [formatversion: 2]), [links] the
    links of a page, [link_title] the title of a link. *)
Record ApiLink : Type := mkLink {
  ns : Z;
  link_title : jsstring
}.

Record ApiPage : Type := mkPage {
  links : option (list ApiLink)
}.

Record ApiResponse : Type := mkResponse {
  query_pages : option (list ApiPage)
}.

(** [Object.values(q.query["pages"])[0]["links"].map(l => l["title"])]:
    reading a property of a missing value raises a TypeError. *)
Definition first_page_titles (q : ApiResponse) : completion (list jsstring) :=
  match query_pages q with
  | None => Throw TypeError
  | Some [] => Throw TypeError
  | Some (page :: _) =>
      match links page with
      | None => Throw TypeError
      | Some ls => Normal (map link_title ls)
      end
  end.

(** [queries.reduce((p, q) => { p.push(...); return p; }, p)]. *)
Fixpoint reduce_titles (p : list jsstring) (queries : list ApiResponse)
  : completion (list jsstring) :=
  match queries with
  | [] => Normal p
  | q :: queries' =>
      match first_page_titles q with
      | Throw e => Throw e
      | Normal ts => reduce_titles (p ++ ts) queries'
      end
  end.

(** [getPages] up to its [await]: the first log line. *)
Definition getPages_begin (bot : Bot) : Bot :=
  mkBot (pages bot) (log bot ++ [js "Getting pages..."]) (twitter bot).

(** [getPages] from the moment [continuedQuery] has answered with
    [queries]: the page list is assigned once the reduction is complete,
    then the second log line is written. *)
Definition getPages_resume (bot : Bot) (queries : list ApiResponse)
  : Bot * completion unit :=
  match reduce_titles [] queries with
  | Throw e => (bot, Throw e)
  | Normal ps =>
      (mkBot ps
         (log bot ++
          [js "Pages received, found " ++ toString (N.of_nat (length ps)) ++
           js "."])
         (twitter bot),
       Normal tt)
  end.

(** [getPages] run as a whole, as [start] awaits it. *)
Definition getPages (bot : Bot) (queries : list ApiResponse)
  : Bot * completion unit :=
  getPages_resume (getPages_begin bot) queries.

Section Driver.

Variable rootText : jsstring -> jsstring.

(** What happens to the bot once it is listening: a refresh of the
    timer starts, a refresh gets its answer, or the stream delivers an
    event.  One thing happens at a time. *)
Inductive occurrence : Type :=
| RefreshStarts
| RefreshAnswered (queries : list ApiResponse)
| Event (change : RecentChange).

Definition occur (bot : Bot) (o : occurrence) : Bot :=
  match o with
  | RefreshStarts => getPages_begin bot
  | RefreshAnswered queries => fst (getPages_resume bot queries)
  | Event change => fst (on_recentchange rootText bot change)
  end.

Definition run (bot : Bot) (os : list occurrence) : Bot :=
  fold_left occur os bot.

(** The events among the occurrences. *)
Definition events (os : list occurrence) : list RecentChange :=
  flat_map (fun o => match o with Event c => [c] | _ => [] end) os.

End Driver.

(** *** The listener on the records as they arrive

    The stream hands the listener whatever record it has decoded: a
    field may be missing or hold a value of another type than the schema
    announces.  [Wire.change] is such a record, and [Wire.classify] and
    [Wire.on_recentchange] are the listener on it, with the RegExp
    objects it creates kept in a store. *)

(** The text given to [tweet] (lines 108-129), with the revision as the
    template literal has converted it. *)
Definition tweet_text_of (user title revision stripped : jsstring)
  : jsstring :=
  if Nat.ltb 0 (length stripped) then
    String_replace
      (String_replace
         (String_replace
            (String_replace TWEET_TEXT re_user user)
            re_title title)
         re_summary (substr0 stripped (nonSummaryLength user title)))
      re_diff revision
  else
    String_replace
      (String_replace
         (String_replace TWEET_TEXT_EMPTY re_user user)
         re_title title)
      re_diff revision.

Module Wire.

(** [revision] is [None] when [change.revision] is missing or [null], so
    that reading its property raises; otherwise it is what
    [change.revision.new] gives. *)
Record change : Type := mk {
  wiki : value;
  type : value;
  title : value;
  user : value;
  comment : value;
  parsedcomment : value;
  revision : option value
}.

(** A record whose fields have the types of the schema. *)
Definition of_RecentChange (c : RecentChange) : change :=
  match c with
  | mkChange w ty ti u co pc rev =>
      mk (VString w) (VString ty) (VString ti) (VString u)
         (match co with Some s => VString s | None => VUndefined end)
         (VString pc)
         (option_map (fun n => VNumber (toString n)) rev)
  end.

(** The event has passed lines 68 to 71. *)
Definition reaches_comment (monitored : list jsstring) (c : change) : Prop :=
  wiki c = VString (js "enwiki") /\ type c = VString (js "edit") /\
  exists t, title c = VString t /\ In t monitored.

Section Listener.

(** [cheerio.load(html)] followed by [$.root().text()] for a string. *)
Variable rootText : jsstring -> jsstring.

(** The same two calls for a value that is no string: whether they raise
    or give some text is up to the library. *)
Variable loadOther : value -> completion jsstring.

Definition load_text (v : value) : completion jsstring :=
  match v with
  | VString html => Normal (rootText html)
  | _ => loadOther v
  end.

(** Lines 95-99: each signature is read from the store and rebuilt
    before it is used. *)
Fixpoint strip_signatures (h : store) (sigs : list reference)
    (acc : jsstring) : store * jsstring :=
  match sigs with
  | [] => (h, acc)
  | sig :: sigs' =>
      let R := deref h sig in
      let (h1, fresh) :=
        allocate h (new_RegExp (source R) (global R) (ignoreCase R)) in
      let (h2, acc') := replace_at h1 acc fresh [] in
      strip_signatures h2 sigs' acc'
  end.

(** Lines 68-102.  Calling [includes] on a comment that is no string
    raises a TypeError: [undefined] and [null] have no properties, a
    number or a boolean has no method of that name. *)
Definition classify (h : store) (monitored : list jsstring) (c : change)
  : store * completion ClassificationResult :=
  if negb (strictly_equals (wiki c) (js "enwiki")) ||
     negb (strictly_equals (type c) (js "edit"))
  then (h, Normal NotQualifying)
  else if negb (Array_includes_value monitored (title c))
  then (h, Normal NotQualifying)
  else
    match comment c with
    | VString text =>
        if String_includes text (js "([[WP:HG|HG]])") ||
           strictly_equals (user c) (js "ClueBot NG")
        then (h, Normal NotQualifying)
        else
          let (h1, keywords) := allocate h vandalism_keywords in
          let (h2, hit) := test_at h1 keywords text in
          if hit then (h2, Normal NotQualifying)
          else
            match load_text (parsedcomment c) with
            | Throw e => (h2, Throw e)
            | Normal summary =>
                let (h3, sigs) := allocate_all h2 signatures in
                let (h4, found) := some_test_at h3 sigs summary in
                if negb found then (h4, Normal NotQualifying)
                else
                  let (h5, stripped) := strip_signatures h4 sigs summary in
                  let (h6, talk) := allocate h5 talk_links in
                  let (h7, stripped') := replace_at h6 stripped talk [] in
                  (h7, Normal (Qualifying stripped'))
            end
    | _ => (h, Throw TypeError)
    end.

(** The listener (lines 67-130).  The template literal of line 104 is
    evaluated before [log.info] is called; [summary] is the text that
    line 79 has got for the rendered comment.  The patterns of lines 110
    to 127 are literals that [replace] uses once each. *)
Definition on_recentchange (h : store) (bot : Bot) (c : change)
  : store * Bot * completion unit :=
  match classify h (pages bot) c with
  | (h', Throw e) => (h', bot, Throw e)
  | (h', Normal NotQualifying) => (h', bot, Normal tt)
  | (h', Normal (Qualifying stripped)) =>
      match revision c with
      | None => (h', bot, Throw TypeError)
      | Some new =>
          let summary :=
            match load_text (parsedcomment c) with
            | Normal text => text
            | Throw _ => []
            end in
          let line :=
            js "Found new edit by " ++ ToString (user c) ++ js " (" ++
            ToString new ++ js "): " ++ summary in
          (h',
           mkBot (pages bot) (log bot ++ [line])
                 (twitter bot ++
                  [tweet_text_of (ToString (user c)) (ToString (title c))
                                 (ToString new) stripped]),
           Normal tt)
      end
  end.

(** The listener called on a sequence of events, one after the other,
    on the store and the bot the calls before have left.  Whether the
    stream calls the listener again once it has raised is up to the
    library of the stream: these are the calls that are made. *)
Definition emit_all (h : store) (bot : Bot) (changes : list change)
  : store * Bot :=
  fold_left (fun hb c => fst (on_recentchange (fst hb) (snd hb) c))
            changes (h, bot).

End Listener.

End Wire.

End WPTCReverts.

(** ** Sample events *)
Module Samples.
Import JS WPTCReverts.

(** The text content of a rendered comment that holds no markup is the
    comment itself. *)
Definition plainText (html : jsstring) : jsstring := html.

Definition monitored : list jsstring := [js "Hurricane Katrina"].

Definition bot0 : Bot := mkBot monitored [] [].

(** An edit of a monitored page on the target wiki, with the given
    editor, summary and new revision. *)
Definition edit (editor summary : jsstring) (rev : N) : RecentChange :=
  mkChange (js "enwiki") (js "edit") (js "Hurricane Katrina") editor
           (Some summary) summary (Some rev).

Definition rollback_with_reason : RecentChange :=
  edit (js "Alice")
       (js "Reverted 1 edit by Foo (talk) to last version by Bar (talk): unsourced claim")
       1000.

Definition undo_without_reason : RecentChange :=
  edit (js "Alice") (js "Undid revision 12345 by Foo (talk)") 1000.

Definition undo_with_reason : RecentChange :=
  edit (js "Alice") (js "Undid revision 12345 by Foo (talk) unsourced") 1000.

(** An undo whose reason is 300 times the letter x. *)
Definition long_reason : jsstring := repeat (chr "x") 300.

Definition undo_with_long_reason : RecentChange :=
  edit (js "Alice") (js "Undid revision 12345 by Foo (talk) " ++ long_reason)
       1000.


(** A rollback whose reason names vandalism. *)
Definition rollback_of_vandalism : RecentChange :=
  edit (js "Alice")
       (js "Reverted 1 edit by Foo (talk) to last version by Bar (talk): Vandalism")
       1000.

Definition huggle_revert : RecentChange :=
  edit (js "Alice")
       (js "Undid revision 12345 by Foo (talk) ([[WP:HG|HG]])") 1000.

Definition twinkle_see_talk : RecentChange :=
  edit (js "Alice") (js "Reverted 2 edits by Foo (talk): see talk") 1000.

Definition twinkle_plain : RecentChange :=
  edit (js "Alice") (js "Reverted 2 edits by Foo (talk): unsourced") 1000.

(** An edit of a monitored page whose comment is missing. *)
Definition edit_without_comment : RecentChange :=
  mkChange (js "enwiki") (js "edit") (js "Hurricane Katrina") (js "Alice")
           None [] (Some 1000%N).

(** An edit of a page that is not monitored. *)
Definition edit_elsewhere : RecentChange :=
  mkChange (js "enwiki") (js "edit") (js "Main Page") (js "Alice")
           None [] None.

(** An editor and a title of 231 characters together. *)
Definition long_editor : jsstring := repeat (chr "a") 200.
Definition long_title : jsstring := repeat (chr "b") 31.

(** An edit whose comment names a revert in the short form. *)
Definition undo_of_rvv : RecentChange :=
  edit (js "Alice") (js "Undid revision 12345 by Foo (talk) RVV") 1000.

(** An edit of a page that the sample answer does not link. *)
Definition edit_of_unlinked_page : RecentChange :=
  mkChange (js "enwiki") (js "edit") (js "Cyclone Tracy") (js "Alice")
           None [] None.

(** An answer that links two pages from the first page it holds, and
    one whose page has no links. *)
Definition index_response : ApiResponse :=
  mkResponse
    (Some [mkPage (Some [mkLink 0 (js "Hurricane Katrina");
                         mkLink 0 (js "Typhoon Haiyan")])]).

Definition response_without_links : ApiResponse :=
  mkResponse (Some [mkPage None]).

(** A library that raises on whatever is no string. *)
Definition strictLoad (v : value) : completion jsstring := Throw Error.

(** Records that lack the types of the schema: a comment that is a
    number, and a rendered comment that is missing. *)
Definition edit_with_numeric_comment : Wire.change :=
  Wire.mk (VString (js "enwiki")) (VString (js "edit"))
          (VString (js "Hurricane Katrina")) (VString (js "Alice"))
          (VNumber (js "5")) (VString (js "5"))
          (Some (VNumber (js "1000"))).

Definition edit_without_parsedcomment : Wire.change :=
  Wire.mk (VString (js "enwiki")) (VString (js "edit"))
          (VString (js "Hurricane Katrina")) (VString (js "Alice"))
          (VString (js "Undid revision 12345 by Foo (talk)")) VUndefined
          (Some (VNumber (js "1000"))).

End Samples.

(** ** Facts about the runtime functions *)
Module JSFacts.
Import JS.

Lemma str_eqb_eq (a b : jsstring) : str_eqb a b = true <-> a = b.
Proof.
  revert b; induction a as [|x a IH]; intros [|y b]; simpl;
    split; try congruence; try discriminate.
  - intros H. apply andb_true_iff in H as [H1 H2].
    apply N.eqb_eq in H1. apply IH in H2. congruence.
  - intros H. injection H as -> ->. rewrite N.eqb_refl. simpl.
    apply IH. reflexivity.
Qed.

Lemma str_eqb_neq (a b : jsstring) : str_eqb a b = false <-> a <> b.
Proof.
  rewrite <- str_eqb_eq. destruct (str_eqb a b); split; congruence.
Qed.

Lemma Array_includes_In (a : list jsstring) (x : jsstring) :
  Array_includes a x = true <-> In x a.
Proof.
  unfold Array_includes. rewrite existsb_exists. split.
  - intros (y & Hy & E). apply str_eqb_eq in E. subst; assumption.
  - intros H. exists x. split; [assumption | now apply str_eqb_eq].
Qed.

Lemma startsWith_spec (p s : jsstring) :
  startsWith p s = true <-> exists t, s = p ++ t.
Proof.
  revert s; induction p as [|x p IH]; intros s; simpl.
  - split; [intros _; now exists s | reflexivity].
  - destruct s as [|y s].
    + split; [discriminate | intros (t & E); discriminate].
    + rewrite andb_true_iff, N.eqb_eq, IH. split.
      * intros (-> & t & ->). now exists t.
      * intros (t & E). injection E as -> ->. split; [reflexivity | now exists t].
Qed.

Lemma String_includes_spec (s p : jsstring) :
  String_includes s p = true <-> exists a b, s = a ++ p ++ b.
Proof.
  induction s as [|c s IH]; simpl.
  - rewrite orb_false_r, startsWith_spec. split.
    + intros (t & E). now exists [], t.
    + intros (a & b & E). destruct a; [now exists b | discriminate].
  - rewrite orb_true_iff, startsWith_spec, IH. split.
    + intros [(t & E) | (a & b & E)].
      * now exists [], t.
      * exists (c :: a), b. now rewrite E.
    + intros (a & b & E). destruct a as [|c' a]; simpl in E.
      * left. now exists b.
      * right. injection E as _ E. now exists a, b.
Qed.

Lemma endsWith_spec (s p : jsstring) :
  endsWith s p = true <-> exists a, s = a ++ p.
Proof.
  induction s as [|c s IH]; cbn [endsWith].
  - rewrite orb_false_r, str_eqb_eq. split.
    + intros <-. now exists [].
    + intros (a & E). symmetry in E. apply app_eq_nil in E. now destruct E.
  - rewrite orb_true_iff, str_eqb_eq, IH. split.
    + intros [<- | (a & ->)]; [now exists [] | now exists (c :: a)].
    + intros (a & E). destruct a as [|c' a]; simpl in E.
      * now left.
      * right. injection E as _ E. now exists a.
Qed.

(** Containment is inherited from a suffix, and from the text that
    follows a prefix. *)
Lemma String_includes_suffix (a t p : jsstring) :
  String_includes t p = true -> String_includes (a ++ t) p = true.
Proof.
  rewrite !String_includes_spec. intros (x & y & ->).
  exists (a ++ x), y. now rewrite <- app_assoc.
Qed.

Lemma startsWith_includes (p s : jsstring) :
  startsWith p s = true -> String_includes s p = true.
Proof.
  rewrite startsWith_spec, String_includes_spec. intros (t & ->).
  now exists [], t.
Qed.

Lemma String_includes_part (s x p y : jsstring) :
  String_includes s (x ++ p ++ y) = true -> String_includes s p = true.
Proof.
  rewrite !String_includes_spec. intros (a & b & ->).
  exists (a ++ x), (y ++ b). now rewrite <- !app_assoc.
Qed.

(** A prefix cannot reach over a code unit it does not hold. *)
Lemma startsWith_straddle (p a : jsstring) (c : code_unit) (s : jsstring) :
  ~ In c p -> startsWith p (a ++ c :: s) = true -> startsWith p a = true.
Proof.
  revert a; induction p as [|x p IH]; intros a Hc; simpl; [reflexivity|].
  destruct a as [|y a]; simpl.
  - rewrite andb_true_iff, N.eqb_eq. intros [-> _].
    exfalso. apply Hc. now left.
  - rewrite !andb_true_iff. intros [E H]. split; [assumption|].
    apply IH; [|assumption]. intros Hin. apply Hc. now right.
Qed.

(** *** The matcher *)

Lemma canonicalize_false (c : code_unit) : canonicalize false c = c.
Proof. reflexivity. Qed.

Lemma rmatch_Seq ic r1 r2 k i s :
  rmatch ic (Seq r1 r2) k i s = rmatch ic r1 (rmatch ic r2 k) i s.
Proof. reflexivity. Qed.

(** A run of pattern characters matches exactly a prefix. *)
Lemma rmatch_Lit (p : jsstring) (k : continuation) (i : nat) (s : jsstring) :
  rmatch false (Lit p) k i s =
  if startsWith p s then k (i + length p) (skipn (length p) s) else None.
Proof.
  revert i s; induction p as [|x p IH]; intros i s; simpl.
  - now rewrite Nat.add_0_r.
  - destruct s as [|y s]; [reflexivity|].
    rewrite !canonicalize_false. destruct (N.eqb x y); simpl; [|reflexivity].
    rewrite IH. now replace (S i + length p) with (i + S (length p)) by lia.
Qed.

Lemma plus_greedy_reaches p (k : continuation) i s z :
  plus_greedy p k i s = Some z ->
  exists j a t, s = a ++ t /\ k j t = Some z.
Proof.
  revert i; induction s as [|c s IH]; intros i; simpl; [discriminate|].
  destruct (p c); [|discriminate].
  destruct (plus_greedy p k (S i) s) eqn:E.
  - intros H; injection H as ->. destruct (IH _ E) as (j & a & t & -> & H).
    now exists j, (c :: a), t.
  - intros H. now exists (S i), [c], s.
Qed.

Lemma plus_lazy_reaches p (k : continuation) i s z :
  plus_lazy p k i s = Some z ->
  exists j a t, s = a ++ t /\ k j t = Some z.
Proof.
  revert i; induction s as [|c s IH]; intros i; simpl; [discriminate|].
  destruct (p c); [|discriminate].
  destruct (k (S i) s) eqn:E.
  - intros H; injection H as ->. now exists (S i), [c], s.
  - intros H. destruct (IH _ H) as (j & a & t & -> & H').
    now exists j, (c :: a), t.
Qed.

(** A successful match has called its continuation on a suffix of the
    input. *)
Lemma rmatch_reaches ic r :
  forall (k : continuation) i s z,
    rmatch ic r k i s = Some z ->
    exists j a t, s = a ++ t /\ k j t = Some z.
Proof.
  induction r as [| a | | | r1 IH1 r2 IH2 | r1 IH1 r2 IH2 | r1 IH1 | r1 IH1
                 | a g]; intros k i s z; simpl.
  - intros H. now exists i, [], s.
  - destruct s as [|c s]; [discriminate|].
    destruct (atom_matches ic a c); [|discriminate].
    intros H. now exists (S i), [c], s.
  - destruct (Nat.eqb i 0); [|discriminate]. intros H. now exists i, [], s.
  - destruct s; [|discriminate]. intros H. now exists i, [], [].
  - intros H. destruct (IH1 _ _ _ _ H) as (j & a & t & -> & H1).
    destruct (IH2 _ _ _ _ H1) as (j' & a' & t' & -> & H2).
    exists j', (a ++ a'), t'. now rewrite <- app_assoc.
  - destruct (rmatch ic r1 k i s) eqn:E.
    + intros H; injection H as ->. eauto.
    + eauto.
  - eauto.
  - destruct (rmatch ic r1 _ i s) eqn:E.
    + intros H; injection H as ->.
      destruct (IH1 _ _ _ _ E) as (j & a & t & -> & H1).
      destruct (Nat.eqb j i); [discriminate|]. now exists j, a, t.
    + intros H. now exists i, [], s.
  - destruct g; [apply plus_greedy_reaches | apply plus_lazy_reaches].
Qed.

(** *** Search and replacement *)

Lemma search_None_here ic r i s :
  search ic r i s = None -> match_at ic r i s = None.
Proof.
  destruct s; simpl; destruct (match_at ic r i _); congruence.
Qed.

(** Where the pattern matches nowhere, the text is left as it is. *)
Lemma replace_scan_no_match ic r repl :
  forall s pre,
    search ic r (length pre) s = None ->
    replace_scan ic r repl pre 0 s = s.
Proof.
  induction s as [|c s IH]; intros pre H;
    pose proof (search_None_here _ _ _ _ H) as H0;
    cbn [replace_scan]; rewrite H0; [reflexivity|].
  f_equal. apply IH. rewrite length_app, Nat.add_1_r.
  simpl in H. now rewrite H0 in H.
Qed.

(** A [$] sign is the only thing GetSubstitution rewrites. *)
Lemma getSubstitution_plain (m pre post repl : jsstring) :
  ~ In 36%N repl -> getSubstitution m pre post repl = repl.
Proof.
  induction repl as [|c r IH]; intros H; [reflexivity|].
  cbn [getSubstitution]. destruct (N.eqb c 36) eqn:E.
  - apply N.eqb_eq in E. exfalso. apply H. now left.
  - f_equal. apply IH. intros Hin. apply H. now right.
Qed.

Lemma replace_scan_skip ic r repl (a : jsstring) :
  forall pre s,
    replace_scan ic r repl pre (length a) (a ++ s) =
    replace_scan ic r repl (pre ++ a) 0 s.
Proof.
  induction a as [|c a IH]; intros pre s.
  - cbn [length app]. now rewrite app_nil_r.
  - cbn [length app replace_scan]. rewrite IH, <- app_assoc. reflexivity.
Qed.

Lemma replace_scan_miss ic r repl pre c s :
  match_at ic r (length pre) (c :: s) = None ->
  replace_scan ic r repl pre 0 (c :: s) =
  c :: replace_scan ic r repl (pre ++ [c]) 0 s.
Proof. intros H. cbn [replace_scan]. now rewrite H. Qed.

Lemma replace_scan_end ic r repl pre :
  match_at ic r (length pre) [] = None ->
  replace_scan ic r repl pre 0 [] = [].
Proof. intros H. cbn [replace_scan]. now rewrite H. Qed.

(** A match of [m], not empty, is replaced and the scan goes on behind
    it. *)
Lemma replace_scan_hit ic r repl pre (m s : jsstring) :
  m <> [] ->
  match_at ic r (length pre) (m ++ s) = Some (length pre + length m, s) ->
  replace_scan ic r repl pre 0 (m ++ s) =
  getSubstitution m pre s repl ++ replace_scan ic r repl (pre ++ m) 0 s.
Proof.
  intros Hm H. destruct m as [|c m]; [congruence|].
  cbn [app replace_scan] in *. rewrite H.
  replace (length pre + length (c :: m) - length pre) with (S (length m))
    by (cbn [length]; lia).
  cbn [firstn Nat.eqb]. rewrite firstn_app, firstn_all, Nat.sub_diag.
  cbn [firstn]. rewrite app_nil_r. f_equal.
  replace (S (length m) - 1) with (length m) by lia.
  rewrite replace_scan_skip, <- app_assoc. reflexivity.
Qed.

(** A stretch of text in which the pattern matches at no position is
    copied. *)
Lemma replace_scan_block ic r repl (a : jsstring) :
  forall pre s,
    (forall i a1 a2, a = a1 ++ a2 -> a2 <> [] ->
                     match_at ic r i (a2 ++ s) = None) ->
    replace_scan ic r repl pre 0 (a ++ s) =
    a ++ replace_scan ic r repl (pre ++ a) 0 s.
Proof.
  induction a as [|c a IH]; intros pre s H.
  - cbn [app]. now rewrite app_nil_r.
  - cbn [app]. rewrite replace_scan_miss.
    + f_equal. rewrite IH, <- app_assoc; [reflexivity|].
      intros i a1 a2 E Hne. apply (H i (c :: a1) a2); [|assumption].
      now rewrite E.
    + apply (H (length pre) [] (c :: a)); [reflexivity | discriminate].
Qed.

Lemma lit_headed_Lit p : lit_headed p (Lit p).
Proof.
  intros i s H. unfold match_at. now rewrite rmatch_Lit, H.
Qed.

Lemma lit_headed_Seq p r : lit_headed p (Seq (Lit p) r).
Proof.
  intros i s H. unfold match_at. now rewrite rmatch_Seq, rmatch_Lit, H.
Qed.

Lemma startsWith_head_miss x (p a s : jsstring) :
  ~ In x a -> a <> [] -> startsWith (x :: p) (a ++ s) = false.
Proof.
  destruct a as [|y a]; [congruence|]. intros H _. cbn [app startsWith].
  destruct (N.eqb x y) eqn:E; [|reflexivity].
  apply N.eqb_eq in E. exfalso. apply H. now left.
Qed.

(** Copying a stretch that lacks the first character of the pattern. *)
Lemma replace_scan_block_char x p r repl (a : jsstring) pre s :
  lit_headed (x :: p) r -> ~ In x a ->
  replace_scan false r repl pre 0 (a ++ s) =
  a ++ replace_scan false r repl (pre ++ a) 0 s.
Proof.
  intros Hr Ha. apply replace_scan_block. intros i a1 a2 -> Hne.
  apply Hr, startsWith_head_miss; [|assumption].
  intros Hin. apply Ha, in_or_app. now right.
Qed.

(** Copying a stretch that does not hold [p], when the text behind it
    starts with a code unit foreign to [p] (or is empty). *)
Lemma replace_scan_block_sub p r repl (a : jsstring) pre s :
  lit_headed p r -> String_includes a p = false ->
  (s = [] \/ exists c s', s = c :: s' /\ ~ In c p) ->
  replace_scan false r repl pre 0 (a ++ s) =
  a ++ replace_scan false r repl (pre ++ a) 0 s.
Proof.
  intros Hr Ha Hs. apply replace_scan_block. intros i a1 a2 -> Hne.
  apply Hr. destruct (startsWith p (a2 ++ s)) eqn:E; [|reflexivity].
  assert (startsWith p a2 = true) as E2.
  { destruct Hs as [-> | (c & s' & -> & Hc)].
    - now rewrite app_nil_r in E.
    - now apply (startsWith_straddle p a2 c s'). }
  apply startsWith_includes in E2.
  apply (String_includes_suffix a1) in E2. congruence.
Qed.

Lemma startsWith_app (p s : jsstring) : startsWith p (p ++ s) = true.
Proof. apply startsWith_spec. now exists s. Qed.

Lemma skipn_length_app (p s : jsstring) : skipn (length p) (p ++ s) = s.
Proof. induction p; [reflexivity | assumption]. Qed.

(** Replacing one occurrence of a run of characters. *)
Lemma replace_scan_Lit_hit (p repl pre s : jsstring) :
  p <> [] ->
  replace_scan false (Lit p) repl pre 0 (p ++ s) =
  getSubstitution p pre s repl ++
  replace_scan false (Lit p) repl (pre ++ p) 0 s.
Proof.
  intros Hp. apply replace_scan_hit; [assumption|].
  unfold match_at. now rewrite rmatch_Lit, startsWith_app, skipn_length_app.
Qed.

(** A greedy [+] over a stretch it accepts entirely, followed by [$]. *)
Lemma plus_greedy_to_end ic p (k : continuation) :
  forall s i,
    s <> [] -> forallb p s = true ->
    plus_greedy p (rmatch ic AssertEnd k) i s = k (i + length s) [].
Proof.
  induction s as [|c s IH]; intros i Hne H; [congruence|].
  cbn [forallb] in H. apply andb_true_iff in H as [Hc Hs].
  cbn [plus_greedy]. rewrite Hc. destruct s as [|c' s].
  - cbn. now rewrite Nat.add_1_r.
  - rewrite IH by (assumption || discriminate).
    replace (S i + length (c' :: s)) with (i + length (c :: c' :: s))
      by (cbn [length]; lia).
    destruct (k _ []); reflexivity.
Qed.

Lemma rmatch_Group ic r k i s :
  rmatch ic (Group r) k i s = rmatch ic r k i s.
Proof. reflexivity. Qed.

(** A property of texts that passes from a suffix to the whole text
    passes from the continuation of a match to its input. *)
Lemma rmatch_reaches_mono (Q : jsstring -> Prop) ic r
    (k : continuation) i s z :
  (forall a t, Q t -> Q (a ++ t)) ->
  rmatch ic r k i s = Some z ->
  (forall j t, k j t = Some z -> Q t) ->
  Q s.
Proof.
  intros HQ H Hk. destruct (rmatch_reaches _ _ _ _ _ _ H) as (j & a & t & -> & E).
  eauto.
Qed.

Lemma endsWith_suffix (a t p : jsstring) :
  endsWith t p = true -> endsWith (a ++ t) p = true.
Proof.
  rewrite !endsWith_spec. intros (x & ->). exists (a ++ x).
  now rewrite <- app_assoc.
Qed.

(** A pattern anchored by [^] matches at index 0 or not at all. *)
Lemma anchored_later ic r i s :
  match_at ic (Seq AssertStart r) (S i) s = None.
Proof. reflexivity. Qed.

Lemma anchored_start ic r k s :
  rmatch ic (Seq AssertStart r) k 0 s = rmatch ic r k 0 s.
Proof. reflexivity. Qed.

Lemma search_anchored_later ic r s :
  forall i, search ic (Seq AssertStart r) (S i) s = None.
Proof.
  induction s as [|c s IH]; intros i; cbn [search];
    rewrite anchored_later; [reflexivity | apply IH].
Qed.

Lemma search_anchored ic r s :
  search ic (Seq AssertStart r) 0 s =
  match match_at ic (Seq AssertStart r) 0 s with
  | Some e => Some (0, e)
  | None => None
  end.
Proof.
  destruct s; cbn [search]; destruct (match_at _ _ 0 _); try reflexivity.
  apply search_anchored_later.
Qed.

(** A pattern that can only match where [p] occurs finds nothing in a
    text without [p]. *)
Lemma search_absent ic r (p : jsstring) :
  (forall i s z, match_at ic r i s = Some z -> String_includes s p = true) ->
  forall s i, String_includes s p = false -> search ic r i s = None.
Proof.
  intros Hr. induction s as [|c s IH]; intros i H; cbn [search].
  - destruct (match_at ic r i []) eqn:E; [|reflexivity].
    apply Hr in E. congruence.
  - destruct (match_at ic r i (c :: s)) eqn:E.
    + apply Hr in E. congruence.
    + apply IH. cbn [String_includes] in H.
      now apply orb_false_iff in H.
Qed.

(** *** Replacing one placeholder *)

Lemma notin_existsb (x : code_unit) (a : jsstring) :
  existsb (N.eqb x) a = false -> ~ In x a.
Proof.
  intros H Hin. assert (existsb (N.eqb x) a = true) as E.
  { apply existsb_exists. exists x. split; [assumption | apply N.eqb_refl]. }
  congruence.
Qed.

Lemma notin_app (x : code_unit) (a b : jsstring) :
  ~ In x a -> ~ In x b -> ~ In x (a ++ b).
Proof. rewrite in_app_iff. tauto. Qed.

Lemma In_firstn (x : code_unit) (n : nat) (l : jsstring) :
  In x (firstn n l) -> In x l.
Proof.
  intros H. rewrite <- (firstn_skipn n l). apply in_or_app. now left.
Qed.

(** The digits of a number hold no other character. *)
Lemma toString_digits (n : N) (c : code_unit) :
  In c (toString n) -> (48 <= c <= 57)%N.
Proof.
  unfold toString. generalize (N.to_uint n) as d.
  induction d; cbn [digits_of_uint In]; intros H;
    try (destruct H as [<- | H]; [lia | now apply IHd]).
  contradiction.
Qed.

(** A text that holds the pattern [pat] once, between a stretch [a]
    without the first character of [pat] and a stretch [b] without
    [pat]: the occurrence is replaced by [repl], which is copied as it
    is when it holds no dollar sign. *)
Lemma replace_one (x : code_unit) (p pat repl a b : jsstring) :
  pat = x :: p -> ~ In 36%N repl -> ~ In x a ->
  String_includes b pat = false ->
  replace_scan false (Lit pat) repl [] 0 (a ++ pat ++ b) = a ++ repl ++ b.
Proof.
  intros -> Hr Ha Hb.
  rewrite (replace_scan_block_char x p (Lit (x :: p)) repl a [] _
             (lit_headed_Lit _) Ha).
  rewrite replace_scan_Lit_hit by discriminate.
  rewrite getSubstitution_plain by assumption.
  rewrite <- (app_nil_r b) at 1.
  rewrite (replace_scan_block_sub (x :: p) (Lit (x :: p)) repl b _ []
             (lit_headed_Lit _) Hb (or_introl eq_refl)).
  rewrite replace_scan_end, !app_nil_r; [reflexivity|].
  now apply lit_headed_Lit.
Qed.

(** A match that runs to the end of the text. *)
Lemma replace_scan_hit_end ic r repl pre (m : jsstring) :
  m <> [] ->
  match_at ic r (length pre) m = Some (length pre + length m, []) ->
  match_at ic r (length (pre ++ m)) [] = None ->
  replace_scan ic r repl pre 0 m = getSubstitution m pre [] repl.
Proof.
  intros Hm H Hend. rewrite <- (app_nil_r m) at 1.
  rewrite replace_scan_hit; [| assumption | now rewrite app_nil_r].
  now rewrite replace_scan_end, app_nil_r.
Qed.

Lemma rmatch_Plus_greedy_End ic a k i s :
  rmatch ic (Seq (Plus a true) AssertEnd) k i s =
  plus_greedy (atom_matches ic a) (rmatch ic AssertEnd k) i s.
Proof. reflexivity. Qed.

(** The search stops at the first position where the pattern
    matches. *)
Lemma search_finds ic r (a : jsstring) :
  forall i s,
    match_at ic r (i + length a) s <> None ->
    search ic r i (a ++ s) <> None.
Proof.
  induction a as [|c a IH]; intros i s H.
  - cbn [app length] in *. rewrite Nat.add_0_r in H.
    destruct s; cbn [search]; destruct (match_at ic r i _); congruence.
  - cbn [app search].
    destruct (match_at ic r i (c :: a ++ s)); [discriminate|].
    apply IH.
    now replace (S i + length a) with (i + length (c :: a))
      by (cbn [length]; lia).
Qed.

(** *** Where a match ends *)

Lemma plus_greedy_reaches_idx p (k : continuation) i s z :
  plus_greedy p k i s = Some z ->
  exists a t, s = a ++ t /\ k (i + length a) t = Some z.
Proof.
  revert i; induction s as [|c s IH]; intros i; simpl; [discriminate|].
  destruct (p c); [|discriminate].
  destruct (plus_greedy p k (S i) s) eqn:E.
  - intros H; injection H as ->. destruct (IH _ E) as (a & t & -> & H).
    exists (c :: a), t. split; [reflexivity|].
    now replace (i + length (c :: a)) with (S i + length a)
      by (cbn [length]; lia).
  - intros H. exists [c], s. now rewrite Nat.add_1_r.
Qed.

Lemma plus_lazy_reaches_idx p (k : continuation) i s z :
  plus_lazy p k i s = Some z ->
  exists a t, s = a ++ t /\ k (i + length a) t = Some z.
Proof.
  revert i; induction s as [|c s IH]; intros i; simpl; [discriminate|].
  destruct (p c); [|discriminate].
  destruct (k (S i) s) eqn:E.
  - intros H; injection H as ->. exists [c], s. now rewrite Nat.add_1_r.
  - intros H. destruct (IH _ H) as (a & t & -> & H').
    exists (c :: a), t. split; [reflexivity|].
    now replace (i + length (c :: a)) with (S i + length a)
      by (cbn [length]; lia).
Qed.

(** The continuation of a successful match is called on a suffix of the
    input, at the index that counts the code units before it. *)
Lemma rmatch_reaches_idx ic r :
  forall (k : continuation) i s z,
    rmatch ic r k i s = Some z ->
    exists a t, s = a ++ t /\ k (i + length a) t = Some z.
Proof.
  induction r as [| a | | | r1 IH1 r2 IH2 | r1 IH1 r2 IH2 | r1 IH1 | r1 IH1
                 | a g]; intros k i s z; simpl.
  - intros H. exists [], s. now rewrite Nat.add_0_r.
  - destruct s as [|c s]; [discriminate|].
    destruct (atom_matches ic a c); [|discriminate].
    intros H. exists [c], s. now rewrite Nat.add_1_r.
  - destruct (Nat.eqb i 0); [|discriminate]. intros H.
    exists [], s. now rewrite Nat.add_0_r.
  - destruct s; [|discriminate]. intros H.
    exists [], []. now rewrite Nat.add_0_r.
  - intros H. destruct (IH1 _ _ _ _ H) as (a & t & -> & H1).
    destruct (IH2 _ _ _ _ H1) as (a' & t' & -> & H2).
    exists (a ++ a'), t'. rewrite <- app_assoc. split; [reflexivity|].
    now rewrite length_app, Nat.add_assoc.
  - destruct (rmatch ic r1 k i s) eqn:E.
    + intros H; injection H as ->. eauto.
    + eauto.
  - eauto.
  - destruct (rmatch ic r1 _ i s) eqn:E.
    + intros H; injection H as ->.
      destruct (IH1 _ _ _ _ E) as (a & t & -> & H1).
      destruct (Nat.eqb (i + length a) i); [discriminate|]. now exists a, t.
    + intros H. exists [], s. now rewrite Nat.add_0_r.
  - destruct g; [apply plus_greedy_reaches_idx | apply plus_lazy_reaches_idx].
Qed.

(** A match attempt that succeeds has consumed a prefix [m] of the input
    and reports its end. *)
Lemma match_at_sound ic r i s e post :
  match_at ic r i s = Some (e, post) ->
  exists m, s = m ++ post /\ e = i + length m.
Proof.
  unfold match_at. intros H.
  destruct (rmatch_reaches_idx _ _ _ _ _ _ H) as (a & t & -> & E).
  injection E as <- <-. now exists a.
Qed.

(** Behind a first match, a pattern anchored by [^] finds nothing. *)
Lemma replace_scan_anchored_rest ic r repl (pre s : jsstring) :
  pre <> [] ->
  replace_scan ic (Seq AssertStart r) repl pre 0 s = s.
Proof.
  intros Hp. apply replace_scan_no_match.
  destruct pre; [congruence|]. cbn [length]. apply search_anchored_later.
Qed.

(** Replacing an anchored pattern by the empty string removes the prefix
    it matches. *)
Lemma replace_anchored_hit ic r s e post :
  match_at ic (Seq AssertStart r) 0 s = Some (e, post) ->
  replace_scan ic (Seq AssertStart r) [] [] 0 s = post.
Proof.
  intros H. destruct (match_at_sound _ _ _ _ _ _ H) as (m & -> & ->).
  destruct m as [|c m].
  - cbn [app] in *. destruct post as [|c post]; cbn [replace_scan length];
      rewrite H; cbn; [reflexivity|].
    f_equal. now apply replace_scan_anchored_rest.
  - rewrite (replace_scan_hit ic _ [] [] (c :: m) post);
      [| discriminate | exact H].
    cbn [getSubstitution app]. now apply replace_scan_anchored_rest.
Qed.

(** *** Computing a match *)

(** A lazy [+] stops at the first place where the rest of the pattern
    matches. *)
Lemma plus_lazy_first p (k : continuation) :
  forall a i s z,
    a <> [] -> forallb p a = true ->
    (forall a1 a2, a = a1 ++ a2 -> a1 <> [] -> a2 <> [] ->
                   k (i + length a1) (a2 ++ s) = None) ->
    k (i + length a) s = Some z ->
    plus_lazy p k i (a ++ s) = Some z.
Proof.
  induction a as [|c a IH]; intros i s z Hne Hp Hearly Hk; [congruence|].
  cbn [forallb] in Hp. apply andb_true_iff in Hp as [Hc Ha].
  cbn [app plus_lazy]. rewrite Hc. destruct a as [|d a].
  - cbn [app length] in *. rewrite Nat.add_1_r in Hk. now rewrite Hk.
  - pose proof (Hearly [c] (d :: a) eq_refl) as H1.
    cbn [length] in H1. rewrite Nat.add_1_r in H1.
    rewrite H1 by discriminate.
    apply IH; [discriminate | assumption | |].
    + intros a1 a2 E H1' H2'.
      replace (S i + length a1) with (i + length (c :: a1))
        by (cbn [length]; lia).
      apply (Hearly (c :: a1) a2); [now rewrite E | discriminate | assumption].
    + now replace (S i + length (d :: a)) with (i + length (c :: d :: a))
        by (cbn [length]; lia).
Qed.

(** A greedy [+] over a run that the next code unit ends. *)
Lemma plus_greedy_run p (k : continuation) :
  forall a i s z,
    a <> [] -> forallb p a = true ->
    match s with [] => True | c :: _ => p c = false end ->
    k (i + length a) s = Some z ->
    plus_greedy p k i (a ++ s) = Some z.
Proof.
  induction a as [|c a IH]; intros i s z Hne Hp Hs Hk; [congruence|].
  cbn [forallb] in Hp. apply andb_true_iff in Hp as [Hc Ha].
  cbn [app plus_greedy]. rewrite Hc. destruct a as [|d a].
  - cbn [app length] in *. rewrite Nat.add_1_r in Hk.
    assert (plus_greedy p k (S i) s = None) as ->.
    { destruct s as [|e s]; [reflexivity|]. cbn [plus_greedy]. now rewrite Hs. }
    assumption.
  - rewrite (IH (S i) s z); [reflexivity | discriminate | assumption
                             | assumption |].
    now replace (S i + length (d :: a)) with (i + length (c :: d :: a))
      by (cbn [length]; lia).
Qed.

Lemma rmatch_Opt_Atom_take ic a (k : continuation) i c s z :
  atom_matches ic a c = true -> k (S i) s = Some z ->
  rmatch ic (Opt (Atom a)) k i (c :: s) = Some z.
Proof.
  intros Ha Hk. cbn [rmatch]. rewrite Ha.
  replace (Nat.eqb (S i) i) with false
    by (symmetry; apply Nat.eqb_neq; lia).
  now rewrite Hk.
Qed.

Lemma rmatch_Opt_Atom_skip ic a (k : continuation) i s :
  match s with [] => True | c :: _ => atom_matches ic a c = false end ->
  rmatch ic (Opt (Atom a)) k i s = k i s.
Proof.
  intros Hs. cbn [rmatch]. destruct s as [|c s]; [reflexivity|].
  now rewrite Hs.
Qed.

(** The second character of a prefix decides, too. *)
Lemma startsWith_second_miss x y (p a : jsstring) z s :
  a <> [] -> ~ In y a -> z <> y ->
  startsWith (x :: y :: p) (a ++ z :: s) = false.
Proof.
  intros Hne Hy Hz. destruct a as [|c [|d a]]; [congruence | |];
    cbn [app startsWith].
  - replace (N.eqb y z) with false
      by (symmetry; apply N.eqb_neq; congruence).
    now rewrite andb_false_r.
  - replace (N.eqb y d) with false.
    + now rewrite andb_false_r.
    + symmetry. apply N.eqb_neq. intros ->. apply Hy. right. now left.
Qed.

Lemma rmatch_Seq_Lit (L : jsstring) r (k : continuation) i s :
  rmatch false (Seq (Lit L) r) k i (L ++ s) = rmatch false r k (i + length L) s.
Proof. now rewrite rmatch_Seq, rmatch_Lit, startsWith_app, skipn_length_app. Qed.

Lemma rmatch_Plus_lazy ic a r (k : continuation) i s :
  rmatch ic (Seq (Plus a false) r) k i s =
  plus_lazy (atom_matches ic a) (rmatch ic r k) i s.
Proof. reflexivity. Qed.

Lemma rmatch_Plus_greedy ic a r (k : continuation) i s :
  rmatch ic (Seq (Plus a true) r) k i s =
  plus_greedy (atom_matches ic a) (rmatch ic r k) i s.
Proof. reflexivity. Qed.

(** A lazy [+] in front of a continuation that needs the prefix [L]. *)
Lemma plus_lazy_until p (k : continuation) (L : jsstring) a i s z :
  (forall j t, startsWith L t = false -> k j t = None) ->
  a <> [] -> forallb p a = true ->
  (forall a1 a2, a = a1 ++ a2 -> a2 <> [] ->
                 startsWith L (a2 ++ s) = false) ->
  k (i + length a) s = Some z ->
  plus_lazy p k i (a ++ s) = Some z.
Proof.
  intros Hk Hne Hp Hearly Hend.
  apply plus_lazy_first; try assumption.
  intros a1 a2 E _ H2. apply Hk. now apply (Hearly a1 a2).
Qed.

Lemma Lit_needs_prefix (L : jsstring) (k : continuation) :
  forall j t, startsWith L t = false -> rmatch false (Lit L) k j t = None.
Proof. intros j t H. now rewrite rmatch_Lit, H. Qed.

Lemma Seq_Lit_needs_prefix (L : jsstring) r (k : continuation) :
  forall j t, startsWith L t = false ->
              rmatch false (Seq (Lit L) r) k j t = None.
Proof. intros j t H. now rewrite rmatch_Seq, rmatch_Lit, H. Qed.

(** The occurrence of [pat] is replaced by what GetSubstitution makes
    of the replacement text. *)
Lemma replace_one_subst (x : code_unit) (p pat repl a b : jsstring) :
  pat = x :: p -> ~ In x a -> String_includes b pat = false ->
  replace_scan false (Lit pat) repl [] 0 (a ++ pat ++ b) =
  a ++ getSubstitution pat a b repl ++ b.
Proof.
  intros -> Ha Hb.
  rewrite (replace_scan_block_char x p (Lit (x :: p)) repl a [] _
             (lit_headed_Lit _) Ha).
  rewrite replace_scan_Lit_hit by discriminate. cbn [app].
  rewrite <- (app_nil_r b) at 2.
  rewrite (replace_scan_block_sub (x :: p) (Lit (x :: p)) repl b _ []
             (lit_headed_Lit _) Hb (or_introl eq_refl)).
  rewrite replace_scan_end, !app_nil_r; [reflexivity|].
  now apply lit_headed_Lit.
Qed.

Lemma getSubstitution_app_plain (m pre post a r : jsstring) :
  ~ In 36%N a ->
  getSubstitution m pre post (a ++ r) = a ++ getSubstitution m pre post r.
Proof.
  induction a as [|c a IH]; intros H; [reflexivity|].
  cbn [app getSubstitution]. destruct (N.eqb c 36) eqn:E.
  - apply N.eqb_eq in E. exfalso. apply H. now left.
  - f_equal. apply IH. intros Hin. apply H. now right.
Qed.

End JSFacts.

(** ** Properties of the listener *)
Module Properties.
Import JS JSFacts WPTCReverts.

(** *** Testing and stripping with fresh patterns *)

Lemma RegExp_test_fresh r ic s :
  fst (RegExp_test (new_RegExp r true ic) s) =
  match search ic r 0 s with Some _ => true | None => false end.
Proof.
  unfold RegExp_test, new_RegExp. cbn.
  destruct (search ic r 0 s) as [[b [e t]]|]; reflexivity.
Qed.

Lemma String_replace_global s r ic repl :
  String_replace s (new_RegExp r true ic) repl = replace_scan ic r repl [] 0 s.
Proof. reflexivity. Qed.

(** A global pattern that fails its test leaves the text alone. *)
Lemma test_false_replace r ic s repl :
  fst (RegExp_test (new_RegExp r true ic) s) = false ->
  String_replace s (new_RegExp r true ic) repl = s.
Proof.
  rewrite RegExp_test_fresh, String_replace_global. intros H.
  apply replace_scan_no_match. cbn [length].
  destruct (search ic r 0 s); [discriminate | reflexivity].
Qed.

(** [test] changes [lastIndex] only. *)
Lemma RegExp_test_keeps v s :
  source (snd (RegExp_test v s)) = source v /\
  global (snd (RegExp_test v s)) = global v /\
  ignoreCase (snd (RegExp_test v s)) = ignoreCase v.
Proof.
  destruct v as [src g ic li]. unfold RegExp_test.
  cbn [source global ignoreCase lastIndex].
  destruct (Nat.ltb (length s) _); [destruct g; now cbn|].
  destruct (search ic src _ _) as [[b [e t]]|]; destruct g; now cbn.
Qed.

(** The strip loop reads the source and the flags of each signature,
    so the marks [some] has left on the array do not reach it. *)
Lemma strippedSummary_after_some (a : list RegExp) (s t : jsstring) :
  strippedSummary (snd (Array_some_test a s)) t = strippedSummary a t.
Proof.
  unfold strippedSummary. f_equal. revert t.
  induction a as [|v a IH]; intros t; [reflexivity|].
  cbn [Array_some_test].
  destruct (RegExp_test v s) as [b v'] eqn:E.
  pose proof (RegExp_test_keeps v s) as (K1 & K2 & K3).
  rewrite E in K1, K2, K3. cbn [snd] in K1, K2, K3.
  destruct b.
  - cbn [snd fold_left]. now rewrite K1, K2, K3.
  - destruct (Array_some_test a s) as [b' a''] eqn:E'.
    cbn [snd fold_left] in *. rewrite K1, K2, K3. apply IH.
Qed.


Lemma Array_some_test_all_false (a : list RegExp) (s : jsstring) :
  Forall (fun v => fst (RegExp_test v s) = false) a ->
  fst (Array_some_test a s) = false.
Proof.
  induction 1 as [|v a Hv _ IH]; [reflexivity|].
  cbn [Array_some_test].
  destruct (RegExp_test v s) as [b v'] eqn:E. cbn [fst] in Hv. subst b.
  destruct (Array_some_test a s) as [b' a'']. assumption.
Qed.

(** *** What the signatures can match *)

Lemma test_anchored r s :
  fst (RegExp_test (new_RegExp (AssertStart ;; r) true false) s) =
  match match_at false (AssertStart ;; r) 0 s with
  | Some _ => true
  | None => false
  end.
Proof.
  rewrite RegExp_test_fresh, search_anchored.
  destruct (match_at _ _ 0 s); reflexivity.
Qed.

(** One step along a sequence: the property is left to be shown where
    the rest of the pattern is tried. *)
Ltac along E t :=
  rewrite rmatch_Seq in E;
  match type of E with
  | rmatch _ _ _ _ ?s = Some _ =>
      pattern s;
      match goal with
      | |- ?Q s => refine (rmatch_reaches_mono Q _ _ _ _ _ _ _ E _)
      end
  end; [assumption|]; clear E; intros ? t E; cbv beta.

Lemma sig_Rollback_match s z :
  match_at false sig_Rollback 0 s = Some z ->
  String_includes s (js " to last version by ") = true.
Proof.
  unfold match_at, sig_Rollback. intros E.
  assert (forall a t, String_includes t (js " to last version by ") = true ->
                      String_includes (a ++ t) (js " to last version by ") = true)
    as HQ by (intros; now apply String_includes_suffix).
  along E t1; along E t2; along E t3; along E t4; along E t5; along E t6;
    along E t7.
  rewrite rmatch_Seq, rmatch_Lit in E.
  destruct (startsWith _ t7) eqn:E1; [|discriminate].
  apply startsWith_includes in E1.
  now apply (String_includes_part _ (js " (talk)") _ []).
Qed.

Lemma sig_Undo_match s z :
  match_at false sig_Undo 0 s = Some z ->
  startsWith (js "Undid revision ") s = true.
Proof.
  unfold match_at, sig_Undo. rewrite anchored_start, rmatch_Seq, rmatch_Lit.
  destruct (startsWith _ s); [reflexivity | discriminate].
Qed.

Lemma sig_RedWarn_match s z :
  match_at false sig_RedWarn 0 s = Some z ->
  startsWith (js "Reverting edit(s) by ") s = true.
Proof.
  unfold match_at, sig_RedWarn.
  rewrite anchored_start, rmatch_Seq, rmatch_Lit.
  destruct (startsWith _ s); [reflexivity | discriminate].
Qed.

(** The Twinkle signature asks for " talk" followed by a colon or by
    the end of the summary. *)
Lemma sig_Twinkle_match s z :
  match_at false sig_Twinkle 0 s = Some z ->
  String_includes s (js " talk:") = true \/ endsWith s (js " talk") = true.
Proof.
  unfold match_at, sig_Twinkle. intros E.
  assert (forall a t,
             String_includes t (js " talk:") = true \/
             endsWith t (js " talk") = true ->
             String_includes (a ++ t) (js " talk:") = true \/
             endsWith (a ++ t) (js " talk") = true) as HQ.
  { intros a t [H | H]; [left; now apply String_includes_suffix
                        | right; now apply endsWith_suffix]. }
  along E t1; along E t2; along E t3; along E t4; along E t5; along E t6;
    along E t7.
  rewrite rmatch_Seq, rmatch_Lit in E.
  destruct (startsWith _ t7) eqn:E1; [|discriminate].
  apply startsWith_spec in E1 as [t8 ->]. rewrite skipn_length_app in E.
  rewrite rmatch_Seq, rmatch_Group, rmatch_Lit in E.
  destruct (startsWith _ t8) eqn:E2; [|discriminate].
  apply startsWith_spec in E2 as [t9 ->]. rewrite skipn_length_app in E.
  rewrite rmatch_Group in E. cbn [rmatch] in E.
  destruct (rmatch false (Lit (js ":")) _ _ t9) eqn:E3.
  - left. rewrite rmatch_Lit in E3.
    destruct (startsWith _ t9) eqn:E4; [|discriminate].
    apply startsWith_spec in E4 as [t10 ->].
    apply String_includes_spec. now exists [], t10.
  - right. destruct t9; [|discriminate]. reflexivity.
Qed.

Lemma startsWith_Reverted_not_Undid s :
  startsWith (js "Reverted ") s = true ->
  startsWith (js "Undid revision ") s = false.
Proof.
  intros H. apply startsWith_spec in H as [t ->]. reflexivity.
Qed.

Lemma startsWith_Reverted_not_Reverting s :
  startsWith (js "Reverted ") s = true ->
  startsWith (js "Reverting edit(s) by ") s = false.
Proof.
  intros H. apply startsWith_spec in H as [t ->]. reflexivity.
Qed.

(** A summary that starts with "Reverted " is recognised by the
    Rollback or by the Twinkle signature, or not at all. *)
Lemma Reverted_no_signature s :
  startsWith (js "Reverted ") s = true ->
  String_includes s (js " to last version by ") = false ->
  String_includes s (js " talk:") = false ->
  endsWith s (js " talk") = false ->
  fst (Array_some_test signatures s) = false.
Proof.
  intros Hs Hr Ht1 Ht2. apply Array_some_test_all_false.
  unfold signatures.
  repeat constructor;
    match goal with
    | |- context [new_RegExp ?r _ _] => unfold r
    end;
    rewrite test_anchored;
    match goal with
    | |- context [match ?m with _ => _ end] => destruct m eqn:E
    end; try reflexivity; exfalso.
  - apply sig_Rollback_match in E. congruence.
  - apply sig_Undo_match in E.
    apply startsWith_Reverted_not_Undid in Hs. congruence.
  - apply sig_RedWarn_match in E.
    apply startsWith_Reverted_not_Reverting in Hs. congruence.
  - apply sig_Twinkle_match in E. destruct E; congruence.
Qed.

(** The talk-link pattern matches only where "(talk)" occurs. *)
Lemma talk_links_match i s z :
  match_at false (source talk_links) i s = Some z ->
  String_includes s (js "(talk)") = true.
Proof.
  unfold match_at, talk_links. cbn [source new_RegExp]. intros E.
  assert (forall a t, String_includes t (js "(talk)") = true ->
                      String_includes (a ++ t) (js "(talk)") = true)
    as HQ by (intros; now apply String_includes_suffix).
  along E t. rewrite rmatch_Lit in E.
  destruct (startsWith _ t) eqn:E1; [|discriminate].
  now apply startsWith_includes.
Qed.


(** *** What the signatures remove *)

Lemma Array_some_test_found (a : list RegExp) (s : jsstring) :
  Exists (fun v => fst (RegExp_test v s) = true) a ->
  fst (Array_some_test a s) = true.
Proof.
  induction a as [|v a IH]; intros H; [inversion H|].
  cbn [Array_some_test]. destruct (RegExp_test v s) as [b v'] eqn:E.
  destruct b; [reflexivity|].
  destruct (Array_some_test a s) as [b' a'']. cbn [fst] in *.
  inversion H as [? ? Hv | ? ? Ha]; subst.
  - rewrite E in Hv. discriminate.
  - now apply IH.
Qed.

Lemma sig_Rollback_prefix s z :
  match_at false sig_Rollback 0 s = Some z ->
  startsWith (js "Reverted ") s = true.
Proof.
  unfold match_at, sig_Rollback.
  rewrite anchored_start, rmatch_Seq, rmatch_Lit.
  destruct (startsWith _ s); [reflexivity | discriminate].
Qed.

Lemma sig_Twinkle_prefix s z :
  match_at false sig_Twinkle 0 s = Some z ->
  startsWith (js "Reverted ") s = true.
Proof.
  unfold match_at, sig_Twinkle.
  rewrite anchored_start, rmatch_Seq, rmatch_Lit.
  destruct (startsWith _ s); [reflexivity | discriminate].
Qed.

(** A signature that needs a prefix the text lacks leaves it alone. *)
Lemma strip_without_prefix r (p s : jsstring) :
  (forall z, match_at false (AssertStart ;; r) 0 s = Some z ->
             startsWith p s = true) ->
  startsWith p s = false ->
  fst (RegExp_test (new_RegExp (AssertStart ;; r) true false) s) = false /\
  String_replace s (new_RegExp (AssertStart ;; r) true false) [] = s.
Proof.
  intros Hr Hp.
  assert (fst (RegExp_test (new_RegExp (AssertStart ;; r) true false) s)
          = false) as Ht.
  { rewrite test_anchored.
    destruct (match_at _ _ 0 s) as [z|]; [|reflexivity].
    specialize (Hr z eq_refl). congruence. }
  split; [assumption | now apply test_false_replace].
Qed.

(** A signature that matches is found by [test] and removed with the
    prefix it matches. *)
Lemma strip_matched r (s post : jsstring) e :
  match_at false (AssertStart ;; r) 0 s = Some (e, post) ->
  fst (RegExp_test (new_RegExp (AssertStart ;; r) true false) s) = true /\
  String_replace s (new_RegExp (AssertStart ;; r) true false) [] = post.
Proof.
  intros H. split.
  - now rewrite test_anchored, H.
  - rewrite String_replace_global. now apply (replace_anchored_hit _ _ _ e).
Qed.

Lemma talk_links_absent (s : jsstring) :
  String_includes s (js "(talk)") = false ->
  String_replace s talk_links [] = s.
Proof.
  intros H. unfold talk_links. rewrite String_replace_global.
  apply replace_scan_no_match.
  apply (search_absent false _ (js "(talk)")); [|assumption].
  intros i t z. apply talk_links_match.
Qed.

Lemma oneLine_dot (a : jsstring) :
  oneLine a -> forallb (atom_matches false ADot) a = true.
Proof. intros H. exact H. Qed.

Lemma notin_part (x : code_unit) (a1 a2 : jsstring) :
  ~ In x (a1 ++ a2) -> ~ In x a2.
Proof. intros H Hin. apply H, in_or_app. now right. Qed.

(** The Undo signature matches the summary of an undo up to its
    reason. *)
Lemma sig_Undo_hit (rev who reason : jsstring) :
  rev <> [] -> oneLine rev -> ~ In (chr " ") rev ->
  who <> [] -> oneLine who -> ~ In (chr "(") who ->
  exists e,
    match_at false sig_Undo 0 (undo_summary rev who reason) =
    Some (e, reason).
Proof.
  intros Hr1 Hr2 Hr3 Hw1 Hw2 Hw3. eexists.
  unfold match_at, sig_Undo, undo_summary.
  rewrite anchored_start, rmatch_Seq_Lit, rmatch_Plus_lazy.
  apply (plus_lazy_until _ _ (js " by "));
    [apply Seq_Lit_needs_prefix | assumption | now apply oneLine_dot | |].
  { intros a1 a2 -> Hne.
    apply (startsWith_head_miss (chr " ") (js "by ")); [|assumption].
    now apply (notin_part _ a1). }
  rewrite rmatch_Seq_Lit, rmatch_Plus_lazy.
  apply (plus_lazy_until _ _ (js " (talk)"));
    [apply Seq_Lit_needs_prefix | assumption | now apply oneLine_dot | |].
  { intros a1 a2 -> Hne.
    apply (startsWith_second_miss (chr " ") (chr "(") (js "talk)") a2
             (chr " ") (js "(talk)" ++ chr " " :: reason));
      [assumption | now apply (notin_part _ a1) | discriminate]. }
  rewrite rmatch_Seq_Lit.
  apply rmatch_Opt_Atom_take; reflexivity.
Qed.

(** The Rollback signature matches the summary of a rollback up to the
    second talk link. *)
Lemma sig_Rollback_hit (n : jsstring) (plural : bool)
    (who last rest : jsstring) :
  digits n ->
  who <> [] -> oneLine who -> ~ In (chr "(") who ->
  last <> [] -> oneLine last -> ~ In (chr "(") last ->
  exists e,
    match_at false sig_Rollback 0 (rollback_summary n plural who last rest) =
    Some (e, rest).
Proof.
  intros [Hn1 Hn2] Hw1 Hw2 Hw3 Hl1 Hl2 Hl3. eexists.
  unfold match_at, sig_Rollback, rollback_summary.
  rewrite anchored_start, rmatch_Seq_Lit, rmatch_Plus_greedy.
  apply plus_greedy_run; [assumption | exact Hn2 | exact eq_refl |].
  rewrite rmatch_Seq_Lit, rmatch_Seq.
  assert (forall z,
             rmatch false
               (Lit (js " by ") ;; Plus ADot false ;;
                Lit (js " (talk) to last version by ") ;;
                Plus ADot false ;; Lit (js " (talk)"))
               (fun j t => Some (j, t))
               (0 + length (js "Reverted ") + length n + length (js " edit")
                + length (if plural then [chr "s"] else []))
               (js " by " ++ who ++ js " (talk) to last version by " ++
                last ++ js " (talk)" ++ rest) = Some z ->
             rmatch false (Opt (Atom (AChar (chr "s"))))
               (rmatch false
                  (Lit (js " by ") ;; Plus ADot false ;;
                   Lit (js " (talk) to last version by ") ;;
                   Plus ADot false ;; Lit (js " (talk)"))
                  (fun j t => Some (j, t)))
               (0 + length (js "Reverted ") + length n + length (js " edit"))
               ((if plural then [chr "s"] else []) ++
                js " by " ++ who ++ js " (talk) to last version by " ++
                last ++ js " (talk)" ++ rest) = Some z) as Hopt.
  { intros z Hz. destruct plural.
    - cbn [app]. apply rmatch_Opt_Atom_take; [reflexivity|].
      cbn [length] in Hz. now rewrite Nat.add_1_r in Hz.
    - cbn [app length] in *. rewrite Nat.add_0_r in Hz.
      now rewrite rmatch_Opt_Atom_skip by exact eq_refl. }
  apply Hopt. clear Hopt.
  rewrite rmatch_Seq_Lit, rmatch_Plus_lazy.
  apply (plus_lazy_until _ _ (js " (talk) to last version by "));
    [apply Seq_Lit_needs_prefix | assumption | now apply oneLine_dot | |].
  { intros a1 a2 -> Hne.
    apply (startsWith_second_miss (chr " ") (chr "(")
             (js "talk) to last version by ") a2 (chr " ")
             (js "(talk) to last version by " ++ last ++ js " (talk)" ++ rest));
      [assumption | now apply (notin_part _ a1) | discriminate]. }
  rewrite rmatch_Seq_Lit, rmatch_Plus_lazy.
  apply (plus_lazy_until _ _ (js " (talk)"));
    [apply Lit_needs_prefix | assumption | now apply oneLine_dot | |].
  { intros a1 a2 -> Hne.
    apply (startsWith_second_miss (chr " ") (chr "(") (js "talk)") a2
             (chr " ") (js "(talk)" ++ rest));
      [assumption | now apply (notin_part _ a1) | discriminate]. }
  rewrite rmatch_Lit, startsWith_app, skipn_length_app. reflexivity.
Qed.

Lemma stripAll_steps (s : jsstring) :
  stripAll s =
  String_replace
    (String_replace
       (String_replace
          (String_replace
             (String_replace s (new_RegExp sig_Rollback true false) [])
             (new_RegExp sig_Undo true false) [])
          (new_RegExp sig_RedWarn true false) [])
       (new_RegExp sig_Twinkle true false) [])
    talk_links [].
Proof. reflexivity. Qed.

(** What is left of a reason once a signature in front of it is
    removed: the later signatures and the talk-link rule leave it alone
    when it starts like none of them and holds no "(talk)". *)
Lemma reason_kept (reason : jsstring) :
  startsWith (js "Reverting edit(s) by ") reason = false ->
  startsWith (js "Reverted ") reason = false ->
  String_includes reason (js "(talk)") = false ->
  String_replace
    (String_replace
       (String_replace reason (new_RegExp sig_RedWarn true false) [])
       (new_RegExp sig_Twinkle true false) [])
    talk_links [] = reason.
Proof.
  intros H1 H2 H3. unfold sig_RedWarn, sig_Twinkle.
  rewrite (proj2 (strip_without_prefix _ (js "Reverting edit(s) by ") reason
                    (fun z => sig_RedWarn_match reason z) H1)).
  rewrite (proj2 (strip_without_prefix _ (js "Reverted ") reason
                    (fun z => sig_Twinkle_prefix reason z) H2)).
  now apply talk_links_absent.
Qed.

(** X4. The summary of an undo, "Undid revision R by U (talk) reason",
    is recognised and stripped to exactly its reason (lines 81 to 102):
    for a revision without spaces and a user name without an opening
    parenthesis, both on one line, and a reason that starts like no
    later signature and holds no "(talk)". *)
Theorem undo_reason_extracted (rev who reason : jsstring) :
  rev <> [] -> oneLine rev -> ~ In (chr " ") rev ->
  who <> [] -> oneLine who -> ~ In (chr "(") who ->
  startsWith (js "Reverting edit(s) by ") reason = false ->
  startsWith (js "Reverted ") reason = false ->
  String_includes reason (js "(talk)") = false ->
  fst (Array_some_test signatures (undo_summary rev who reason)) = true /\
  stripAll (undo_summary rev who reason) = reason.
Proof.
  intros Hr1 Hr2 Hr3 Hw1 Hw2 Hw3 H1 H2 H3.
  destruct (sig_Undo_hit rev who reason Hr1 Hr2 Hr3 Hw1 Hw2 Hw3) as [e He].
  assert (startsWith (js "Reverted ") (undo_summary rev who reason) = false)
    as Hp by reflexivity.
  pose proof (strip_without_prefix _ (js "Reverted ") _
                (fun z => sig_Rollback_prefix _ z) Hp) as [T1 R1].
  pose proof (strip_matched _ _ _ _ He) as [T2 R2].
  split.
  - apply Array_some_test_found. unfold signatures.
    apply Exists_cons_tl, Exists_cons_hd. exact T2.
  - rewrite stripAll_steps.
    unfold sig_Rollback at 1. rewrite R1.
    unfold sig_Undo at 1. rewrite R2. now apply reason_kept.
Qed.

(** X5. The summary of a rollback, "Reverted N edit(s) by U (talk) to
    last version by V (talk)" followed by any text, is recognised, and
    the strip rules remove the signature and nothing else (lines 81 to
    102): what follows the second talk link is kept from its first
    character on, separator included, when it starts like no other
    signature and holds no "(talk)". *)
Theorem rollback_rest_kept (n : jsstring) (plural : bool)
    (who last rest : jsstring) :
  digits n ->
  who <> [] -> oneLine who -> ~ In (chr "(") who ->
  last <> [] -> oneLine last -> ~ In (chr "(") last ->
  startsWith (js "Undid revision ") rest = false ->
  startsWith (js "Reverting edit(s) by ") rest = false ->
  startsWith (js "Reverted ") rest = false ->
  String_includes rest (js "(talk)") = false ->
  fst (Array_some_test signatures
         (rollback_summary n plural who last rest)) = true /\
  stripAll (rollback_summary n plural who last rest) = rest.
Proof.
  intros Hn Hw1 Hw2 Hw3 Hl1 Hl2 Hl3 H0 H1 H2 H3.
  destruct (sig_Rollback_hit n plural who last rest Hn Hw1 Hw2 Hw3
              Hl1 Hl2 Hl3) as [e He].
  pose proof (strip_matched _ _ _ _ He) as [T1 R1].
  pose proof (strip_without_prefix _ (js "Undid revision ") rest
                (fun z => sig_Undo_match rest z) H0) as [_ R2].
  split.
  - apply Array_some_test_found. unfold signatures.
    apply Exists_cons_hd. exact T1.
  - rewrite stripAll_steps.
    unfold sig_Rollback at 1. rewrite R1.
    unfold sig_Undo at 1. rewrite R2. now apply reason_kept.
Qed.



(** X6. The RedWarn signature ends in a lazy [.+?]: whenever it matches
    a summary, the text it removes ends with " by ", one character and
    at most a colon and a space, so the rest of the name that follows
    " by " stays in the stripped summary (lines 87 and 96 to 99). *)
Theorem RedWarn_removes_one_character (s : jsstring) :
  fst (RegExp_test (new_RegExp sig_RedWarn true false) s) = true ->
  exists a c sep,
    s = a ++ js " by " ++ [c] ++ sep ++
        String_replace s (new_RegExp sig_RedWarn true false) [] /\
    (sep = [] \/ sep = js ":" \/ sep = js ": ").
Proof.
  unfold sig_RedWarn. rewrite test_anchored.
  destruct (match_at _ _ 0 s) as [[e post]|] eqn:E; [|discriminate].
  intros _. rewrite (proj2 (strip_matched _ _ _ _ E)).
  unfold match_at in E.
  assert (forall a t,
             (exists a' c sep,
                 t = a' ++ js " by " ++ [c] ++ sep ++ post /\
                 (sep = [] \/ sep = js ":" \/ sep = js ": ")) ->
             exists a' c sep,
               a ++ t = a' ++ js " by " ++ [c] ++ sep ++ post /\
               (sep = [] \/ sep = js ":" \/ sep = js ": ")) as HQ.
  { intros a t (a' & c & sep & -> & Hs). exists (a ++ a'), c, sep.
    now rewrite <- app_assoc. }
  along E t1; along E t2; along E t3; along E t4; along E t5; along E t6;
    along E t7; along E t8; along E t9.
  rewrite rmatch_Seq, rmatch_Lit in E.
  destruct (startsWith _ t9) eqn:E1; [|discriminate].
  apply startsWith_spec in E1 as [t10 ->]. rewrite skipn_length_app in E.
  rewrite rmatch_Plus_lazy in E.
  destruct t10 as [|c t10]; [discriminate|]. cbn [plus_lazy] in E.
  destruct (atom_matches false ADot c); [|discriminate].
  exists [], c. cbn [rmatch] in E.
  match type of E with
  | match match ?X with _ => _ end with _ => _ end = _ =>
      destruct X as [z|] eqn:EX
  end.
  - injection E as ->. rewrite rmatch_Lit in EX.
    destruct (startsWith _ t10) eqn:E2; [|discriminate].
    apply startsWith_spec in E2 as [t11 ->]. rewrite skipn_length_app in EX.
    cbv beta in EX.
    destruct t11 as [|d t11];
      [| destruct (atom_matches false (AChar (chr " ")) d) eqn:Ed;
         [apply N.eqb_eq in Ed; cbn in Ed; subst d|]];
      repeat match type of EX with
             | context [if ?b then _ else _] => destruct b
             end;
      try discriminate EX; injection EX as _ <-;
      first [ exists (js ":"); split; [reflexivity | tauto]
            | exists (js ": "); split; [reflexivity | tauto] ].
  - injection E as _ <-. exists []. split; [reflexivity | tauto].
Qed.

(** The keyword pattern matches wherever the letters "vand" stand, in
    either case. *)
Lemma vandalism_keywords_match (w b : jsstring) (i : nat) :
  map (canonicalize true) w = js "VAND" ->
  match_at true (source vandalism_keywords) i (w ++ b) <> None.
Proof.
  intros H. destruct w as [|c1 [|c2 [|c3 [|c4 [|]]]]]; try discriminate H.
  change (js "VAND") with [86; 65; 78; 68]%N in H. cbn [map] in H.
  injection H as H1 H2 H3 H4.
  unfold match_at, vandalism_keywords. cbn [source new_RegExp].
  cbn -[canonicalize].
  change (canonicalize true 114%N) with 82%N.
  change (canonicalize true 118%N) with 86%N.
  change (canonicalize true 97%N) with 65%N.
  change (canonicalize true 110%N) with 78%N.
  change (canonicalize true 100%N) with 68%N.
  rewrite H1, H2, H3, H4. cbn -[canonicalize].
  match goal with
  | |- match ?X with _ => _ end <> None => destruct X; discriminate
  end.
Qed.

(** The keyword pattern matches wherever "rv" is followed by "v" or
    "d", in either case. *)
Lemma revert_keywords_match (w b : jsstring) (i : nat) :
  map (canonicalize true) w = js "RVV" \/
  map (canonicalize true) w = js "RVD" ->
  match_at true (source vandalism_keywords) i (w ++ b) <> None.
Proof.
  intros H. destruct w as [|c1 [|c2 [|c3 [|]]]];
    try (destruct H as [H | H]; discriminate H).
  change (js "RVV") with [82; 86; 86]%N in H.
  change (js "RVD") with [82; 86; 68]%N in H. cbn [map] in H.
  assert (canonicalize true c1 = 82%N /\ canonicalize true c2 = 86%N /\
          (canonicalize true c3 = 86%N \/ canonicalize true c3 = 68%N))
    as (H1 & H2 & H3).
  { destruct H as [H | H]; injection H as -> -> ->; tauto. }
  unfold match_at, vandalism_keywords. cbn [source new_RegExp].
  cbn -[canonicalize].
  change (canonicalize true 114%N) with 82%N.
  change (canonicalize true 118%N) with 86%N.
  change (canonicalize true 100%N) with 68%N.
  rewrite H1, H2. destruct H3 as [-> | ->]; cbn; discriminate.
Qed.

(** *** The text of a notification *)

Lemma String_replace_one (x : code_unit) (p pat repl a b text result : jsstring) :
  text = a ++ pat ++ b -> result = a ++ repl ++ b ->
  pat = x :: p -> ~ In (chr "$") repl -> ~ In x a ->
  String_includes b pat = false ->
  String_replace text (new_RegExp (Lit pat) true false) repl = result.
Proof.
  intros -> -> Hp Hr Ha Hb. rewrite String_replace_global.
  now apply (replace_one x p).
Qed.

Ltac reassoc := rewrite <- ?app_assoc; reflexivity.

Ltac notin :=
  repeat apply notin_app;
  first [ assumption
        | apply notin_existsb; reflexivity
        | intros [] ].

Lemma plain_firstn (n : nat) (r : jsstring) : plain r -> plain (firstn n r).
Proof.
  intros [H1 H2]. split; intros H; apply In_firstn in H; tauto.
Qed.

Lemma toString_no_dollar (n : N) : ~ In (chr "$") (toString n).
Proof.
  intros H. apply toString_digits in H. cbv in H. destruct H as [H _].
  now apply H.
Qed.

(** The four substitutions into [TWEET_TEXT], one after the other. *)
Lemma replace_user (u : jsstring) :
  plain u ->
  String_replace TWEET_TEXT re_user u =
  js "New revert by " ++ u ++ js " on " ++ [dquote] ++ js "{{{title}}}" ++
  [dquote] ++ js ": " ++ [dquote] ++ js "{{{summary}}}" ++ [dquote] ++
  js " " ++ TWEET_URL.
Proof.
  intros [Hd Hb].
  apply (String_replace_one (chr "{") (js "{{user}}}") _ _
           (js "New revert by ")
           (js " on " ++ [dquote] ++ js "{{{title}}}" ++
            [dquote] ++ js ": " ++ [dquote] ++ js "{{{summary}}}" ++
            [dquote] ++ js " " ++ TWEET_URL));
    [reflexivity | reflexivity | reflexivity | assumption | notin
    | reflexivity].
Qed.

Lemma replace_title (u t : jsstring) :
  plain u -> plain t ->
  String_replace
    (js "New revert by " ++ u ++ js " on " ++ [dquote] ++ js "{{{title}}}" ++
     [dquote] ++ js ": " ++ [dquote] ++ js "{{{summary}}}" ++ [dquote] ++
     js " " ++ TWEET_URL)
    re_title t =
  js "New revert by " ++ u ++ js " on " ++ [dquote] ++ t ++
  [dquote] ++ js ": " ++ [dquote] ++ js "{{{summary}}}" ++ [dquote] ++
  js " " ++ TWEET_URL.
Proof.
  intros [Hud Hub] [Htd Htb].
  apply (String_replace_one (chr "{") (js "{{title}}}") _ _
           (js "New revert by " ++ u ++ js " on " ++ [dquote])
           ([dquote] ++ js ": " ++ [dquote] ++ js "{{{summary}}}" ++
            [dquote] ++ js " " ++ TWEET_URL));
    [reassoc | reassoc | reflexivity | assumption | notin | reflexivity].
Qed.

Lemma replace_summary (u t r : jsstring) :
  plain u -> plain t -> plain r ->
  String_replace
    (js "New revert by " ++ u ++ js " on " ++ [dquote] ++ t ++
     [dquote] ++ js ": " ++ [dquote] ++ js "{{{summary}}}" ++ [dquote] ++
     js " " ++ TWEET_URL)
    re_summary r =
  js "New revert by " ++ u ++ js " on " ++ [dquote] ++ t ++
  [dquote] ++ js ": " ++ [dquote] ++ r ++ [dquote] ++
  js " " ++ TWEET_URL.
Proof.
  intros [Hud Hub] [Htd Htb] [Hrd Hrb].
  apply (String_replace_one (chr "{") (js "{{summary}}}") _ _
           (js "New revert by " ++ u ++ js " on " ++ [dquote] ++ t ++
            [dquote] ++ js ": " ++ [dquote])
           ([dquote] ++ js " " ++ TWEET_URL));
    [reassoc | reassoc | reflexivity | assumption | notin | reflexivity].
Qed.

Lemma replace_diff (u t r : jsstring) (rev : N) :
  plain u -> plain t -> plain r ->
  String_replace
    (js "New revert by " ++ u ++ js " on " ++ [dquote] ++ t ++
     [dquote] ++ js ": " ++ [dquote] ++ r ++ [dquote] ++
     js " " ++ TWEET_URL)
    re_diff (toString rev) =
  js "New revert by " ++ u ++ js " on " ++ [dquote] ++ t ++
  [dquote] ++ js ": " ++ [dquote] ++ r ++ [dquote] ++
  js " " ++ diff_link rev.
Proof.
  intros [Hud Hub] [Htd Htb] [Hrd Hrb].
  apply (String_replace_one (chr "{") (js "{{diff}}}") _ _
           (js "New revert by " ++ u ++ js " on " ++ [dquote] ++ t ++
            [dquote] ++ js ": " ++ [dquote] ++ r ++ [dquote] ++
            js " " ++ js "https://en.wikipedia.org/wiki/Special:Diff/")
           []);
    [ | | reflexivity | apply toString_no_dollar | notin | reflexivity].
  - change TWEET_URL
      with (js "https://en.wikipedia.org/wiki/Special:Diff/" ++
            js "{{{diff}}}" ++ []).
    reassoc.
  - unfold diff_link. rewrite app_nil_r. reassoc.
Qed.

(** The three substitutions into [TWEET_TEXT_EMPTY]. *)
Lemma replace_user_empty (u : jsstring) :
  plain u ->
  String_replace TWEET_TEXT_EMPTY re_user u =
  js "New revert by " ++ u ++ js " on " ++ [dquote] ++ js "{{{title}}}" ++
  [dquote] ++ js " with no given reason. " ++ TWEET_URL.
Proof.
  intros [Hd Hb].
  apply (String_replace_one (chr "{") (js "{{user}}}") _ _
           (js "New revert by ")
           (js " on " ++ [dquote] ++ js "{{{title}}}" ++
            [dquote] ++ js " with no given reason. " ++ TWEET_URL));
    [reflexivity | reflexivity | reflexivity | assumption | notin
    | reflexivity].
Qed.

Lemma replace_title_empty (u t : jsstring) :
  plain u -> plain t ->
  String_replace
    (js "New revert by " ++ u ++ js " on " ++ [dquote] ++ js "{{{title}}}" ++
     [dquote] ++ js " with no given reason. " ++ TWEET_URL)
    re_title t =
  js "New revert by " ++ u ++ js " on " ++ [dquote] ++ t ++
  [dquote] ++ js " with no given reason. " ++ TWEET_URL.
Proof.
  intros [Hud Hub] [Htd Htb].
  apply (String_replace_one (chr "{") (js "{{title}}}") _ _
           (js "New revert by " ++ u ++ js " on " ++ [dquote])
           ([dquote] ++ js " with no given reason. " ++ TWEET_URL));
    [reassoc | reassoc | reflexivity | assumption | notin | reflexivity].
Qed.

Lemma replace_diff_empty (u t : jsstring) (rev : N) :
  plain u -> plain t ->
  String_replace
    (js "New revert by " ++ u ++ js " on " ++ [dquote] ++ t ++
     [dquote] ++ js " with no given reason. " ++ TWEET_URL)
    re_diff (toString rev) =
  js "New revert by " ++ u ++ js " on " ++ [dquote] ++ t ++
  [dquote] ++ js " with no given reason. " ++ diff_link rev.
Proof.
  intros [Hud Hub] [Htd Htb].
  apply (String_replace_one (chr "{") (js "{{diff}}}") _ _
           (js "New revert by " ++ u ++ js " on " ++ [dquote] ++ t ++
            [dquote] ++ js " with no given reason. " ++
            js "https://en.wikipedia.org/wiki/Special:Diff/")
           []);
    [ | | reflexivity | apply toString_no_dollar | notin | reflexivity].
  - change TWEET_URL
      with (js "https://en.wikipedia.org/wiki/Special:Diff/" ++
            js "{{{diff}}}" ++ []).
    reassoc.
  - unfold diff_link. rewrite app_nil_r. reassoc.
Qed.

(** The link of the template, from its first character to the end of
    the text, is what [/https:.+$/] matches. *)
Lemma https_hit (i : nat) :
  match_at false (source re_https) i TWEET_URL =
  Some (i + length TWEET_URL, []).
Proof.
  unfold match_at, re_https. cbn [source new_RegExp].
  rewrite rmatch_Seq, rmatch_Lit.
  change (startsWith (js "https:") TWEET_URL) with true. cbv iota.
  change (skipn (length (js "https:")) TWEET_URL)
    with (js "//en.wikipedia.org/wiki/Special:Diff/{{{diff}}}").
  rewrite rmatch_Plus_greedy_End.
  rewrite plus_greedy_to_end; [| discriminate | reflexivity].
  cbv beta. f_equal. f_equal.
  change (length (js "https:")) with 6.
  change (length (js "//en.wikipedia.org/wiki/Special:Diff/{{{diff}}}"))
    with 47.
  change (length TWEET_URL) with 53. lia.
Qed.

(** The replacement of the link by the filler, on the text whose
    summary has been removed. *)
Lemma replace_https (u t : jsstring) :
  String_includes u (js "https:") = false ->
  String_includes t (js "https:") = false ->
  String_replace
    (js "New revert by " ++ u ++ js " on " ++ [dquote] ++ t ++
     [dquote] ++ js ": " ++ [dquote] ++ [] ++ [dquote] ++
     js " " ++ TWEET_URL)
    re_https (String_repeat (js "-") 24) =
  js "New revert by " ++ u ++ js " on " ++ [dquote] ++ t ++
  [dquote] ++ js ": " ++ [dquote] ++ [] ++ [dquote] ++
  js " " ++ String_repeat (js "-") 24.
Proof.
  intros Hu Ht. unfold re_https. rewrite String_replace_global.
  set (r := Lit (js "https:") ;; Plus ADot true ;; AssertEnd).
  assert (lit_headed (chr "h" :: js "ttps:") r) as Hc
      by apply (lit_headed_Seq (js "https:")).
  assert (lit_headed (js "https:") r) as Hs by apply lit_headed_Seq.
  rewrite (replace_scan_block_char _ _ r _ (js "New revert by ") _ _ Hc)
    by notin.
  rewrite (replace_scan_block_sub _ r _ u _ _ Hs Hu)
    by (right; eexists _, _; split; [reflexivity | notin]).
  rewrite (replace_scan_block_char _ _ r _ (js " on ") _ _ Hc) by notin.
  rewrite (replace_scan_block_char _ _ r _ [dquote] _ _ Hc) by notin.
  rewrite (replace_scan_block_sub _ r _ t _ _ Hs Ht)
    by (right; eexists _, _; split; [reflexivity | notin]).
  rewrite (replace_scan_block_char _ _ r _ [dquote] _ _ Hc) by notin.
  rewrite (replace_scan_block_char _ _ r _ (js ": ") _ _ Hc) by notin.
  rewrite (replace_scan_block_char _ _ r _ [dquote] _ _ Hc) by notin.
  rewrite (replace_scan_block_char _ _ r _ [] _ _ Hc) by notin.
  rewrite (replace_scan_block_char _ _ r _ [dquote] _ _ Hc) by notin.
  rewrite (replace_scan_block_char _ _ r _ (js " ") _ _ Hc) by notin.
  rewrite replace_scan_hit_end;
    [ | discriminate | apply https_hit | now apply Hs].
  rewrite getSubstitution_plain by notin. reflexivity.
Qed.

Ltac lengths :=
  rewrite ?length_app;
  repeat match goal with
         | |- context [length (js ?x)] =>
             let n := eval vm_compute in (length (js x)) in
             change (length (js x)) with n
         | |- context [length (String_repeat ?x ?k)] =>
             let n := eval vm_compute in (length (String_repeat x k)) in
             change (length (String_repeat x k)) with n
         end;
  cbn [length].

Lemma plain_nil : plain [].
Proof. split; intros []. Qed.

(** The room left for the summary: 280, less the text around it with
    the link counted as 24 characters. *)
Lemma nonSummaryLength_plain (u t : jsstring) :
  plain u -> plain t ->
  String_includes u (js "https:") = false ->
  String_includes t (js "https:") = false ->
  nonSummaryLength u t =
  (231 - Z.of_nat (length u) - Z.of_nat (length t))%Z.
Proof.
  intros Hu Ht Hu' Ht'. unfold nonSummaryLength.
  rewrite (replace_user u Hu), (replace_title u t Hu Ht),
    (replace_summary u t [] Hu Ht plain_nil), (replace_https u t Hu' Ht').
  lengths. lia.
Qed.

Lemma firstn_clamp (n : nat) (r : jsstring) :
  firstn (Nat.min n (length r)) r = firstn n r.
Proof.
  destruct (Nat.le_ge_cases n (length r)) as [H | H].
  - now rewrite Nat.min_l.
  - rewrite Nat.min_r by assumption.
    now rewrite firstn_all, firstn_all2.
Qed.

(** The notification for a non-empty reason, written out. *)
Lemma tweet_text_reason (u t : jsstring) (rev : N) (r : jsstring) :
  r <> [] -> plain u -> plain t -> plain r ->
  String_includes u (js "https:") = false ->
  String_includes t (js "https:") = false ->
  tweet_text u t rev r =
  js "New revert by " ++ u ++ js " on " ++ [dquote] ++ t ++
  [dquote] ++ js ": " ++ [dquote] ++
  firstn (231 - length u - length t) r ++ [dquote] ++
  js " " ++ diff_link rev.
Proof.
  intros Hr Hu Ht Hpr Hu' Ht'. unfold tweet_text.
  assert (Nat.ltb 0 (length r) = true) as ->
      by (destruct r; [congruence | reflexivity]).
  rewrite (nonSummaryLength_plain u t Hu Ht Hu' Ht'). unfold substr0.
  replace (Z.to_nat _)
    with (Nat.min (231 - length u - length t) (length r)) by lia.
  rewrite firstn_clamp.
  pose proof (plain_firstn (231 - length u - length t) r Hpr) as Hf.
  now rewrite (replace_user u Hu), (replace_title u t Hu Ht),
    (replace_summary u t _ Hu Ht Hf), (replace_diff u t _ rev Hu Ht Hf).
Qed.

(** The notification for an empty reason, written out. *)
Lemma tweet_text_empty (u t : jsstring) (rev : N) :
  plain u -> plain t ->
  tweet_text u t rev [] =
  js "New revert by " ++ u ++ js " on " ++ [dquote] ++ t ++
  [dquote] ++ js " with no given reason. " ++ diff_link rev.
Proof.
  intros Hu Ht. unfold tweet_text. cbn [length Nat.ltb Nat.leb].
  now rewrite (replace_user_empty u Hu), (replace_title_empty u t Hu Ht),
    (replace_diff_empty u t rev Hu Ht).
Qed.

(** X3. The room computed for the summary is 231 characters less
    editor and title (lines 109 to 113), for plain editor and title
    without "https:". *)
Theorem room_for_summary (u t : jsstring) :
  plain u -> plain t ->
  String_includes u (js "https:") = false ->
  String_includes t (js "https:") = false ->
  nonSummaryLength u t =
  (231 - Z.of_nat (length u) - Z.of_nat (length t))%Z.
Proof. apply nonSummaryLength_plain. Qed.

(** X7. A reason that fits the room is shown in full, between the
    quotes of [TWEET_TEXT] (lines 108 to 121): for plain editor, title
    and reason, editor and title without "https:", and at most 231
    characters in all. *)
Theorem reason_shown_in_full (u t : jsstring) (rev : N) (r : jsstring) :
  r <> [] -> plain u -> plain t -> plain r ->
  String_includes u (js "https:") = false ->
  String_includes t (js "https:") = false ->
  length u + length t + length r <= 231 ->
  tweet_text u t rev r =
  js "New revert by " ++ u ++ js " on " ++ [dquote] ++ t ++
  [dquote] ++ js ": " ++ [dquote] ++ r ++ [dquote] ++
  js " " ++ diff_link rev.
Proof.
  intros Hr Hu Ht Hpr Hu' Ht' Hfit.
  rewrite tweet_text_reason by assumption.
  now rewrite firstn_all2 by lia.
Qed.

(** X8. For an editor, a title and a reason that are plain, and an
    editor and a title that do not hold "https:": when editor and title
    leave no room (231 characters or more together), a reason that is
    not empty is dropped altogether.  The text keeps the quotes of
    [TWEET_TEXT] with nothing between them, and differs from the text
    that the empty reason gets from [TWEET_TEXT_EMPTY] (lines 108 to
    121). *)
Theorem reason_dropped_without_room (u t : jsstring) (rev : N)
    (r : jsstring) :
  r <> [] -> plain u -> plain t -> plain r ->
  String_includes u (js "https:") = false ->
  String_includes t (js "https:") = false ->
  231 <= length u + length t ->
  tweet_text u t rev r =
  js "New revert by " ++ u ++ js " on " ++ [dquote] ++ t ++
  [dquote] ++ js ": " ++ [dquote] ++ [dquote] ++
  js " " ++ diff_link rev /\
  tweet_text u t rev r <> tweet_text u t rev [].
Proof.
  intros Hr Hu Ht Hpr Hu' Ht' Hfull.
  rewrite tweet_text_reason, tweet_text_empty by assumption.
  replace (231 - length u - length t) with 0 by lia.
  split; [reflexivity|]. intros H.
  do 5 apply app_inv_head in H. discriminate H.
Qed.

(** X9. For the empty reason the text is "New revert by U on "T" with no
    given reason." followed by the link, whatever the length of editor
    and title (lines 122 to 129). *)
Theorem no_reason_text (u t : jsstring) (rev : N) :
  plain u -> plain t ->
  tweet_text u t rev [] =
  js "New revert by " ++ u ++ js " on " ++ [dquote] ++ t ++
  [dquote] ++ js " with no given reason. " ++ diff_link rev.
Proof. apply tweet_text_empty. Qed.

(** The summary goes through GetSubstitution, with the text around its
    placeholder. *)
Lemma replace_summary_subst (u t r : jsstring) :
  ~ In (chr "{") u -> ~ In (chr "{") t ->
  String_replace
    (js "New revert by " ++ u ++ js " on " ++ [dquote] ++ t ++
     [dquote] ++ js ": " ++ [dquote] ++ js "{{{summary}}}" ++ [dquote] ++
     js " " ++ TWEET_URL)
    re_summary r =
  js "New revert by " ++ u ++ js " on " ++ [dquote] ++ t ++
  [dquote] ++ js ": " ++ [dquote] ++
  getSubstitution (js "{{{summary}}}")
    (js "New revert by " ++ u ++ js " on " ++ [dquote] ++ t ++
     [dquote] ++ js ": " ++ [dquote])
    ([dquote] ++ js " " ++ TWEET_URL) r ++
  [dquote] ++ js " " ++ TWEET_URL.
Proof.
  intros Hu Ht. unfold re_summary. rewrite String_replace_global.
  replace (js "New revert by " ++ u ++ js " on " ++ [dquote] ++ t ++
           [dquote] ++ js ": " ++ [dquote] ++ js "{{{summary}}}" ++
           [dquote] ++ js " " ++ TWEET_URL)
    with ((js "New revert by " ++ u ++ js " on " ++ [dquote] ++ t ++
           [dquote] ++ js ": " ++ [dquote]) ++ js "{{{summary}}}" ++
          [dquote] ++ js " " ++ TWEET_URL) by reassoc.
  rewrite (replace_one_subst (chr "{") (js "{{summary}}}"));
    [reassoc | reflexivity | notin | reflexivity].
Qed.

Lemma replace_diff_braces (u t r : jsstring) (rev : N) :
  ~ In (chr "{") u -> ~ In (chr "{") t -> ~ In (chr "{") r ->
  String_replace
    (js "New revert by " ++ u ++ js " on " ++ [dquote] ++ t ++
     [dquote] ++ js ": " ++ [dquote] ++ r ++ [dquote] ++
     js " " ++ TWEET_URL)
    re_diff (toString rev) =
  js "New revert by " ++ u ++ js " on " ++ [dquote] ++ t ++
  [dquote] ++ js ": " ++ [dquote] ++ r ++ [dquote] ++
  js " " ++ diff_link rev.
Proof.
  intros Hub Htb Hrb.
  apply (String_replace_one (chr "{") (js "{{diff}}}") _ _
           (js "New revert by " ++ u ++ js " on " ++ [dquote] ++ t ++
            [dquote] ++ js ": " ++ [dquote] ++ r ++ [dquote] ++
            js " " ++ js "https://en.wikipedia.org/wiki/Special:Diff/")
           []);
    [ | | reflexivity | apply toString_no_dollar | notin | reflexivity].
  - change TWEET_URL
      with (js "https://en.wikipedia.org/wiki/Special:Diff/" ++
            js "{{{diff}}}" ++ []).
    reassoc.
  - unfold diff_link. rewrite app_nil_r. reassoc.
Qed.

(** X10. The reason is the replacement text of a [replace], so a pair
    of dollar signs in it comes out as one: for a reason "a$$b" that
    fits the room, the text shows "a$b" (lines 116 to 120). *)
Theorem dollar_pair_collapses (u t : jsstring) (rev : N) (a b : jsstring) :
  plain u -> plain t -> plain a -> plain b ->
  String_includes u (js "https:") = false ->
  String_includes t (js "https:") = false ->
  length u + length t + length a + 2 + length b <= 231 ->
  tweet_text u t rev (a ++ js "$$" ++ b) =
  js "New revert by " ++ u ++ js " on " ++ [dquote] ++ t ++
  [dquote] ++ js ": " ++ [dquote] ++ (a ++ js "$" ++ b) ++ [dquote] ++
  js " " ++ diff_link rev.
Proof.
  intros Hu Ht [Had Hab] [Hbd Hbb] Hu' Ht' Hfit. unfold tweet_text.
  assert (length (a ++ js "$$" ++ b) = length a + 2 + length b) as Hlen
      by (rewrite !length_app; change (length (js "$$")) with 2; lia).
  assert (Nat.ltb 0 (length (a ++ js "$$" ++ b)) = true) as ->
      by (apply Nat.ltb_lt; lia).
  rewrite (nonSummaryLength_plain u t Hu Ht Hu' Ht'). unfold substr0.
  rewrite firstn_all2 by lia.
  rewrite (replace_user u Hu), (replace_title u t Hu Ht).
  destruct Hu as [_ Hub]. destruct Ht as [_ Htb].
  rewrite (replace_summary_subst u t _ Hub Htb).
  rewrite getSubstitution_app_plain by assumption.
  change (js "$$" ++ b) with (36%N :: 36%N :: b).
  cbn [getSubstitution N.eqb Pos.eqb].
  rewrite getSubstitution_plain by assumption.
  change (36%N :: b) with (js "$" ++ b).
  apply replace_diff_braces; [assumption | assumption | notin].
Qed.

(** *** The refresh of the page list *)

Lemma first_page_titles_Normal (q : ApiResponse) (ts : list jsstring) :
  first_page_titles q = Normal ts <->
  exists page rest ls,
    query_pages q = Some (page :: rest) /\ links page = Some ls /\
    ts = map link_title ls.
Proof.
  unfold first_page_titles.
  destruct (query_pages q) as [[|page rest]|].
  - split; [discriminate | intros (? & ? & ? & H & _); discriminate].
  - destruct (links page) as [ls|] eqn:El.
    + split.
      * intros H. injection H as <-. now exists page, rest, ls.
      * intros (page' & rest' & ls' & H1 & H2 & ->).
        injection H1 as <- <-. congruence.
    + split; [discriminate|].
      intros (page' & rest' & ls' & H1 & H2 & _).
      injection H1 as <- <-. congruence.
  - split; [discriminate | intros (? & ? & ? & H & _); discriminate].
Qed.

Lemma first_page_titles_Throw (q : ApiResponse) :
  first_page_titles q = Throw TypeError <->
  query_pages q = None \/ query_pages q = Some [] \/
  exists page rest, query_pages q = Some (page :: rest) /\ links page = None.
Proof.
  unfold first_page_titles.
  destruct (query_pages q) as [[|page rest]|].
  - split; [tauto | reflexivity].
  - destruct (links page) as [ls|] eqn:El.
    + split; [discriminate|].
      intros [H | [H | (page' & rest' & H1 & H2)]]; try discriminate.
      injection H1 as <- <-. congruence.
    + split; [|reflexivity]. intros _. right. right. now exists page, rest.
  - split; [tauto | reflexivity].
Qed.

Lemma reduce_titles_In (qs : list ApiResponse) :
  forall p ps,
    reduce_titles p qs = Normal ps ->
    forall t,
      In t ps <->
      In t p \/
      exists q ts, In q qs /\ first_page_titles q = Normal ts /\ In t ts.
Proof.
  induction qs as [|q qs IH]; intros p ps H t; cbn [reduce_titles] in H.
  - injection H as <-. split; [tauto|].
    intros [H | (q & ts & [] & _)]. assumption.
  - destruct (first_page_titles q) as [ts|e] eqn:E; [|discriminate].
    rewrite (IH _ _ H t), in_app_iff. split.
    + intros [[Hp | Ht] | (q' & ts' & Hq & Hf & Hin)].
      * now left.
      * right. exists q, ts. split; [now left | now split].
      * right. exists q', ts'. split; [now right | now split].
    + intros [Hp | (q' & ts' & [<- | Hq] & Hf & Hin)].
      * left. now left.
      * left. right. congruence.
      * right. now exists q', ts'.
Qed.

(** Reading the answers raises nothing but a TypeError. *)
Lemma first_page_titles_TypeError (q : ApiResponse) (e : exception) :
  first_page_titles q = Throw e -> e = TypeError.
Proof.
  unfold first_page_titles.
  destruct (query_pages q) as [[|page rest]|]; try congruence.
  destruct (links page); congruence.
Qed.

Lemma reduce_titles_TypeError (qs : list ApiResponse) :
  forall p e, reduce_titles p qs = Throw e -> e = TypeError.
Proof.
  induction qs as [|q qs IH]; intros p e; cbn [reduce_titles];
    [discriminate|].
  destruct (first_page_titles q) as [ts|e'] eqn:E; [apply IH|].
  intros H. injection H as <-. now apply (first_page_titles_TypeError q).
Qed.

Lemma reduce_titles_Throw (qs : list ApiResponse) :
  forall p,
    reduce_titles p qs = Throw TypeError <->
    exists q, In q qs /\ first_page_titles q = Throw TypeError.
Proof.
  induction qs as [|q qs IH]; intros p; cbn [reduce_titles].
  - split; [discriminate | intros (q & [] & _)].
  - destruct (first_page_titles q) as [ts|e] eqn:E.
    + rewrite IH. split.
      * intros (q' & Hq & Hf). exists q'. split; [now right | assumption].
      * intros (q' & [<- | Hq] & Hf); [congruence | now exists q'].
    + pose proof (first_page_titles_TypeError q e E) as He. subst e.
      split; [|reflexivity]. intros _. exists q. split; [now left | assumption].
Qed.

Lemma getPages_pages (bot : Bot) (queries : list ApiResponse) :
  snd (getPages bot queries) = Normal tt ->
  forall t,
    In t (pages (fst (getPages bot queries))) <->
    exists q page rest ls l,
      In q queries /\ query_pages q = Some (page :: rest) /\
      links page = Some ls /\ In l ls /\ link_title l = t.
Proof.
  unfold getPages, getPages_resume.
  destruct (reduce_titles [] queries) as [ps|e] eqn:E; [|discriminate].
  intros _ t. cbn [fst pages]. rewrite (reduce_titles_In _ _ _ E t). split.
  - intros [[] | (q & ts & Hq & Hf & Hin)].
    apply first_page_titles_Normal in Hf as (page & rest & ls & H1 & H2 & ->).
    apply in_map_iff in Hin as (l & Hl & Hin).
    now exists q, page, rest, ls, l.
  - intros (q & page & rest & ls & l & Hq & H1 & H2 & Hin & <-).
    right. exists q, (map link_title ls). split; [assumption|]. split.
    + apply first_page_titles_Normal. now exists page, rest, ls.
    + now apply in_map.
Qed.

(** X11. After a refresh that succeeds, the page list holds exactly the
    titles linked from the first page of each answer: what was monitored
    before is dropped unless it is linked again (lines 143 to 148). *)
Theorem getPages_membership (bot : Bot) (queries : list ApiResponse) :
  snd (getPages bot queries) = Normal tt ->
  forall t,
    In t (pages (fst (getPages bot queries))) <->
    exists q page rest ls l,
      In q queries /\ query_pages q = Some (page :: rest) /\
      links page = Some ls /\ In l ls /\ link_title l = t.
Proof. apply getPages_pages. Qed.

(** X12. A refresh fails exactly when some answer has no pages, or a
    first page without links; it then raises a TypeError and leaves the
    page list and the notifications as they were: the page list is only
    assigned once every answer has been read (lines 143 to 148). *)
Theorem getPages_fails_iff (bot : Bot) (queries : list ApiResponse) :
  (snd (getPages bot queries) = Throw TypeError <->
   exists q,
     In q queries /\
     (query_pages q = None \/ query_pages q = Some [] \/
      exists page rest,
        query_pages q = Some (page :: rest) /\ links page = None)) /\
  (snd (getPages bot queries) = Throw TypeError ->
   pages (fst (getPages bot queries)) = pages bot /\
   twitter (fst (getPages bot queries)) = twitter bot).
Proof.
  unfold getPages, getPages_resume.
  pose proof (reduce_titles_Throw queries []) as HT.
  destruct (reduce_titles [] queries) as [ps|e] eqn:E; cbn [fst snd];
    [|pose proof (reduce_titles_TypeError queries [] e E) as He; subst e].
  - split; [|discriminate]. split; [discriminate|].
    intros (q & Hq & Hf). apply first_page_titles_Throw in Hf.
    assert (Normal ps = Throw TypeError) as Habs
        by (apply HT; now exists q).
    discriminate Habs.
  - split; [|now intros _]. split; [|reflexivity]. intros _.
    destruct (proj1 HT eq_refl) as (q & Hq & Hf).
    exists q. split; [assumption | now apply first_page_titles_Throw].
Qed.

Section Listener.

Variable rootText : jsstring -> jsstring.

(** The listener past its early returns. *)
Lemma classify_passed (monitored : list jsstring) (change : RecentChange)
    (c : jsstring) :
  wiki change = js "enwiki" -> type change = js "edit" ->
  In (title change) monitored ->
  comment change = Some c ->
  String_includes c (js "([[WP:HG|HG]])") = false ->
  user change <> js "ClueBot NG" ->
  fst (RegExp_test vandalism_keywords c) = false ->
  classify rootText monitored change =
  if fst (Array_some_test signatures (rootText (parsedcomment change)))
  then Normal (Qualifying (stripAll (rootText (parsedcomment change))))
  else Normal NotQualifying.
Proof.
  intros Hw Ht Hp Hc Hhg Hu Hv. unfold classify, stripAll.
  apply str_eqb_eq in Hw, Ht. apply Array_includes_In in Hp.
  apply str_eqb_neq in Hu. rewrite Hw, Ht, Hp, Hc, Hhg, Hu, Hv.
  cbn [negb orb].
  pose proof (strippedSummary_after_some signatures
                (rootText (parsedcomment change))
                (rootText (parsedcomment change))) as E.
  destruct (Array_some_test signatures _) as [[|] sigs];
    cbn [fst snd negb] in *; [now rewrite E | reflexivity].
Qed.

(** The first two returns of the listener. *)
Lemma classify_early_return (monitored : list jsstring)
    (change : RecentChange) :
  type change <> js "edit" \/ wiki change <> js "enwiki" \/
  ~ In (title change) monitored ->
  classify rootText monitored change = Normal NotQualifying.
Proof.
  intros H. unfold classify.
  destruct (str_eqb (wiki change) (js "enwiki")) eqn:Ew;
    [|reflexivity].
  destruct (str_eqb (type change) (js "edit")) eqn:Et; [|reflexivity].
  destruct (Array_includes monitored (title change)) eqn:Ep;
    [|reflexivity].
  apply str_eqb_eq in Ew, Et. apply Array_includes_In in Ep. tauto.
Qed.

(** C8. An event that is not an edit, or not of the target wiki, or
    whose title is not among the monitored pages, is not qualifying,
    whatever its comment (which may even be missing). *)
Theorem classify_prefilter (monitored : list jsstring)
    (change : RecentChange) :
  type change <> js "edit" \/ wiki change <> js "enwiki" \/
  ~ In (title change) monitored ->
  classify rootText monitored change = Normal NotQualifying.
Proof. apply classify_early_return. Qed.

(** C7. An event whose comment holds the Huggle marker, or whose editor
    is ClueBot NG, is not qualifying, whatever else its summary holds. *)
Theorem classify_exempt (monitored : list jsstring)
    (change : RecentChange) (c : jsstring) :
  comment change = Some c ->
  String_includes c (js "([[WP:HG|HG]])") = true \/
  user change = js "ClueBot NG" ->
  classify rootText monitored change = Normal NotQualifying.
Proof.
  intros Hc H. unfold classify. rewrite Hc.
  destruct (_ || _); [reflexivity|].
  destruct (negb _); [reflexivity|].
  destruct H as [-> | H]; [reflexivity|].
  apply str_eqb_eq in H. rewrite H, orb_true_r. reflexivity.
Qed.

(** The listener leaves the monitored pages as they are. *)
Lemma on_recentchange_pages (bot : Bot) (change : RecentChange) :
  pages (fst (on_recentchange rootText bot change)) = pages bot.
Proof.
  unfold on_recentchange.
  destruct (classify rootText (pages bot) change) as [[|r]|e];
    try reflexivity.
  destruct (revision change); reflexivity.
Qed.

Lemma emit_all_pages (changes : list RecentChange) :
  forall bot, pages (emit_all rootText bot changes) = pages bot.
Proof.
  induction changes as [|ch changes IH]; intros bot; [reflexivity|].
  cbn [emit_all fold_left]. fold (emit_all rootText).
  change (fold_left _ changes ?b) with (emit_all rootText b changes).
  now rewrite IH, on_recentchange_pages.
Qed.

(** C6. The comment "Undid revision 12345 by Foo (talk)", on a monitored
    page of the target wiki, from an editor other than the exempt bot:
    the event qualifies with the empty reason, and the text given to
    [tweet] is built from [TWEET_TEXT_EMPTY]. *)
Theorem undo_without_reason_empty (bot : Bot) (change : RecentChange)
    (rev : N) :
  wiki change = js "enwiki" -> type change = js "edit" ->
  In (title change) (pages bot) ->
  user change <> js "ClueBot NG" ->
  comment change = Some (js "Undid revision 12345 by Foo (talk)") ->
  rootText (parsedcomment change) = js "Undid revision 12345 by Foo (talk)" ->
  revision change = Some rev ->
  classify rootText (pages bot) change = Normal (Qualifying []) /\
  twitter (fst (on_recentchange rootText bot change)) =
  twitter bot ++
  [String_replace
     (String_replace
        (String_replace TWEET_TEXT_EMPTY re_user (user change))
        re_title (title change))
     re_diff (toString rev)].
Proof.
  intros Hw Ht Hp Hu Hc Hs Hr.
  assert (classify rootText (pages bot) change = Normal (Qualifying []))
    as Hcl.
  { rewrite (classify_passed _ _ _ Hw Ht Hp Hc); try assumption;
      [rewrite Hs | |]; now vm_compute. }
  split; [assumption|].
  unfold on_recentchange. rewrite Hcl, Hr. reflexivity.
Qed.

(** C2, as the code has it.  The rollback signature ends at the second
    talk link and the listener does not trim: for the comment "Reverted 1
    edit by Foo (talk) to last version by Bar (talk): unsourced claim"
    the reason keeps the separator, ": unsourced claim". *)
Theorem rollback_reason_keeps_separator (monitored : list jsstring)
    (change : RecentChange) :
  wiki change = js "enwiki" -> type change = js "edit" ->
  In (title change) monitored ->
  user change <> js "ClueBot NG" ->
  comment change =
    Some (js "Reverted 1 edit by Foo (talk) to last version by Bar (talk): unsourced claim") ->
  rootText (parsedcomment change) =
    js "Reverted 1 edit by Foo (talk) to last version by Bar (talk): unsourced claim" ->
  classify rootText monitored change =
  Normal (Qualifying (js ": unsourced claim")).
Proof.
  intros Hw Ht Hp Hu Hc Hs.
  rewrite (classify_passed _ _ _ Hw Ht Hp Hc); try assumption;
    [rewrite Hs | |]; now vm_compute.
Qed.

Lemma classify_no_signature (monitored : list jsstring)
    (change : RecentChange) :
  comment change <> None ->
  fst (Array_some_test signatures (rootText (parsedcomment change))) = false ->
  classify rootText monitored change = Normal NotQualifying.
Proof.
  intros Hc H. unfold classify.
  destruct (comment change) as [c|]; [|congruence].
  destruct (Array_some_test signatures _) as [found sigs].
  cbn [fst] in H. subst found. cbn [negb].
  repeat match goal with
         | |- context [if ?b then _ else _] => destruct b
         end; reflexivity.
Qed.

(** C10, as the code has it.  A summary of the Twinkle form, with a
    parenthesised talk link after the user name and no rollback tail, is
    not recognised, as long as it holds no " talk" followed by a colon
    or by the end of the summary: the Twinkle signature asks for the
    text " talk" without parentheses. *)
Theorem twinkle_form_not_recognised (monitored : list jsstring)
    (change : RecentChange) (n : N) (plural : bool)
    (who reason : jsstring) :
  comment change <> None ->
  rootText (parsedcomment change) = twinkle_summary n plural who reason ->
  String_includes (twinkle_summary n plural who reason)
                  (js " to last version by ") = false ->
  String_includes (twinkle_summary n plural who reason) (js " talk:") = false ->
  endsWith (twinkle_summary n plural who reason) (js " talk") = false ->
  classify rootText monitored change = Normal NotQualifying.
Proof.
  intros Hc Hs Hr Ht1 Ht2. apply classify_no_signature; [assumption|].
  rewrite Hs. apply Reverted_no_signature; try assumption.
  unfold twinkle_summary. apply startsWith_app.
Qed.

(** What the listener gives to [tweet] for a qualifying event. *)
Lemma on_recentchange_tweet (bot : Bot) (change : RecentChange)
    (r : jsstring) (rev : N) :
  classify rootText (pages bot) change = Normal (Qualifying r) ->
  revision change = Some rev ->
  twitter (fst (on_recentchange rootText bot change)) =
  twitter bot ++ [tweet_text (user change) (title change) rev r].
Proof.
  intros Hc Hr. unfold on_recentchange. now rewrite Hc, Hr.
Qed.

(** C1, as the code has it.  The room for the reason is computed with
    the link counted as 24 characters, whatever its length.  For a
    qualifying event whose editor, title and reason are plain, and whose
    editor and title do not hold "https:", the text counts at most 280
    characters with its link counted as 24, provided editor and title
    together have at most 231 characters (213 for the empty reason,
    whose text is not truncated). *)
Theorem notification_within_budget (bot : Bot) (change : RecentChange)
    (r : jsstring) (rev : N) :
  classify rootText (pages bot) change = Normal (Qualifying r) ->
  revision change = Some rev ->
  plain (user change) -> plain (title change) -> plain r ->
  String_includes (user change) (js "https:") = false ->
  String_includes (title change) (js "https:") = false ->
  length (user change) + length (title change) <=
    match r with [] => 213 | _ :: _ => 231 end ->
  exists text,
    twitter (fst (on_recentchange rootText bot change)) =
      twitter bot ++ [text] /\
    length text + 24 <= 280 + length (diff_link rev).
Proof.
  intros Hc Hrev Hu Ht Hr Hu' Ht' Hlen.
  eexists. split; [apply (on_recentchange_tweet bot change r rev Hc Hrev)|].
  destruct r as [|c r].
  - rewrite (tweet_text_empty _ _ rev Hu Ht). lengths. lia.
  - rewrite (tweet_text_reason _ _ rev (c :: r)) by (assumption || discriminate).
    lengths. rewrite length_firstn. lia.
Qed.

(** C4, as the code has it.  A reason of 300 characters is cut to the
    room left by editor and title, the text around it and the link are
    as the template has them, and the text has 256 characters besides
    its link, that is 280 with the link counted as 24. *)
Theorem long_reason_truncated (bot : Bot) (change : RecentChange)
    (r : jsstring) (rev : N) :
  classify rootText (pages bot) change = Normal (Qualifying r) ->
  revision change = Some rev ->
  length r = 300 ->
  plain (user change) -> plain (title change) -> plain r ->
  String_includes (user change) (js "https:") = false ->
  String_includes (title change) (js "https:") = false ->
  length (user change) + length (title change) <= 231 ->
  exists text,
    twitter (fst (on_recentchange rootText bot change)) =
      twitter bot ++ [text] /\
    text =
      js "New revert by " ++ user change ++ js " on " ++ [dquote] ++
      title change ++ [dquote] ++ js ": " ++ [dquote] ++
      firstn (231 - length (user change) - length (title change)) r ++
      [dquote] ++ js " " ++ diff_link rev /\
    length text = 256 + length (diff_link rev).
Proof.
  intros Hc Hrev Hlen Hu Ht Hr Hu' Ht' Hfit.
  eexists. split; [apply (on_recentchange_tweet bot change r rev Hc Hrev)|].
  assert (r <> []) as Hne by (intros ->; discriminate).
  rewrite (tweet_text_reason _ _ rev r) by assumption.
  split; [reflexivity|]. lengths. rewrite length_firstn. lia.
Qed.

(** X1. The reason of a qualifying event is the summary with the strip
    rules applied, and the summary starts with a signature (lines 92 to
    102). *)
Theorem qualifying_reason_is_stripAll (monitored : list jsstring)
    (change : RecentChange) (r : jsstring) :
  classify rootText monitored change = Normal (Qualifying r) ->
  fst (Array_some_test signatures (rootText (parsedcomment change))) = true /\
  r = stripAll (rootText (parsedcomment change)).
Proof.
  unfold classify, stripAll.
  destruct (_ || _); [discriminate|].
  destruct (negb _); [discriminate|].
  destruct (comment change) as [c|]; [|discriminate].
  destruct (_ || _); [discriminate|].
  destruct (fst _); [discriminate|].
  pose proof (strippedSummary_after_some signatures
                (rootText (parsedcomment change))
                (rootText (parsedcomment change))) as E.
  destruct (Array_some_test signatures _) as [[|] sigs];
    cbn [fst snd negb] in *; [|discriminate].
  intros H. injection H as <-. now split.
Qed.

(** X2. A comment that holds the letters "vand", in either case, is
    not qualifying (line 75). *)
Theorem vandalism_keyword_rejected (monitored : list jsstring)
    (change : RecentChange) (a w b : jsstring) :
  comment change = Some (a ++ w ++ b) ->
  map (canonicalize true) w = js "VAND" ->
  classify rootText monitored change = Normal NotQualifying.
Proof.
  intros Hc Hw. unfold classify. rewrite Hc.
  destruct (_ || _); [reflexivity|].
  destruct (negb _); [reflexivity|].
  destruct (_ || _); [reflexivity|].
  unfold vandalism_keywords at 1. rewrite RegExp_test_fresh.
  pose proof (search_finds true (source vandalism_keywords) a 0 (w ++ b)
                (vandalism_keywords_match w b (0 + length a) Hw)) as H.
  cbn [source vandalism_keywords new_RegExp] in H.
  destruct (search true _ 0 (a ++ w ++ b)); [reflexivity | congruence].
Qed.

(** X13. A comment that holds "rvv" or "rvd", in either case, is not
    qualifying, whatever signature the summary starts with (line 75). *)
Theorem revert_keyword_rejected (monitored : list jsstring)
    (change : RecentChange) (a w b : jsstring) :
  comment change = Some (a ++ w ++ b) ->
  map (canonicalize true) w = js "RVV" \/
  map (canonicalize true) w = js "RVD" ->
  classify rootText monitored change = Normal NotQualifying.
Proof.
  intros Hc Hw. unfold classify. rewrite Hc.
  destruct (_ || _); [reflexivity|].
  destruct (negb _); [reflexivity|].
  destruct (_ || _); [reflexivity|].
  unfold vandalism_keywords at 1. rewrite RegExp_test_fresh.
  pose proof (search_finds true (source vandalism_keywords) a 0 (w ++ b)
                (revert_keywords_match w b (0 + length a) Hw)) as H.
  cbn [source vandalism_keywords new_RegExp] in H.
  destruct (search true _ 0 (a ++ w ++ b)); [reflexivity | congruence].
Qed.

(** X15. After a refresh that succeeds, an event whose title none of
    the answers links is passed over, without error and without a
    notification, even if the page was monitored before the refresh and
    whatever its other fields (lines 70 and 143 to 148). *)
Theorem unlinked_page_passed_over (bot : Bot) (queries : list ApiResponse)
    (change : RecentChange) :
  snd (getPages bot queries) = Normal tt ->
  (forall q page rest ls,
      In q queries -> query_pages q = Some (page :: rest) ->
      links page = Some ls -> ~ In (title change) (map link_title ls)) ->
  on_recentchange rootText (fst (getPages bot queries)) change =
  (fst (getPages bot queries), Normal tt).
Proof.
  intros Hok Hno. unfold on_recentchange.
  rewrite classify_early_return; [reflexivity|].
  right. right. intros Hin.
  apply (getPages_pages bot queries Hok) in Hin
    as (q & page & rest & ls & l & Hq & H1 & H2 & Hl & Ht).
  apply (Hno q page rest ls Hq H1 H2). rewrite <- Ht. now apply in_map.
Qed.

Lemma occur_appends (bot : Bot) (o : occurrence) :
  exists lines new,
    log (occur rootText bot o) = log bot ++ lines /\
    twitter (occur rootText bot o) = twitter bot ++ new /\
    length new <= length (events [o]) /\
    length new <= length lines.
Proof.
  destruct o as [|queries|change]; cbn [occur events flat_map app length].
  - exists [js "Getting pages..."], []. rewrite app_nil_r.
    cbn [length getPages_begin log twitter]. repeat split; lia.
  - unfold getPages_resume.
    destruct (reduce_titles [] queries) as [ps|e]; cbn [fst log twitter].
    + exists [js "Pages received, found " ++
              toString (N.of_nat (length ps)) ++ js "."], [].
      rewrite app_nil_r. cbn [length]. repeat split; lia.
    + exists [], []. rewrite !app_nil_r. cbn [length]. repeat split; lia.
  - unfold on_recentchange.
    destruct (classify rootText (pages bot) change) as [[|r]|e];
      try (exists [], []; rewrite !app_nil_r; cbn [fst length];
           repeat split; lia).
    destruct (revision change) as [rev|];
      [| exists [], []; rewrite !app_nil_r; cbn [fst length];
         repeat split; lia].
    cbn [fst log twitter].
    exists [js "Found new edit by " ++ user change ++ js " (" ++
            toString rev ++ js "): " ++ rootText (parsedcomment change)],
      [tweet_text (user change) (title change) rev r].
    cbn [length]. repeat split; lia.
Qed.

(** X16. Whatever refreshes and events follow one another, the listener
    and the refresh only ever append: the notifications sent so far and
    the log lines stay as they are, at most one notification is added
    per event, and every notification comes with a log line (lines 104
    to 129, 134 and 149). *)
Theorem run_appends (os : list occurrence) :
  forall bot,
  exists lines new,
    log (run rootText bot os) = log bot ++ lines /\
    twitter (run rootText bot os) = twitter bot ++ new /\
    length new <= length (events os) /\
    length new <= length lines.
Proof.
  induction os as [|o os IH]; intros bot.
  - exists [], []. cbn. rewrite !app_nil_r. repeat split; lia.
  - cbn [run fold_left]. fold (run rootText (occur rootText bot o) os).
    destruct (occur_appends bot o) as (l1 & n1 & Hl1 & Hn1 & Hc1 & Hd1).
    destruct (IH (occur rootText bot o)) as (l2 & n2 & Hl2 & Hn2 & Hc2 & Hd2).
    exists (l1 ++ l2), (n1 ++ n2).
    rewrite Hl2, Hn2, Hl1, Hn1, <- !app_assoc.
    assert (events (o :: os) = events [o] ++ events os) as ->
        by (unfold events; cbn [flat_map]; now rewrite app_nil_r).
    rewrite !length_app. repeat split; lia.
Qed.

(** X17. While the page list is empty, as the class first sets it
    (line 37), and no refresh has been answered, no event raises an
    error or sends a notification, whatever its fields (lines 37 and 68
    to 71). *)
Theorem nothing_sent_on_empty_page_list (os : list occurrence) :
  forall bot,
    pages bot = [] ->
    (forall queries, ~ In (RefreshAnswered queries) os) ->
    pages (run rootText bot os) = [] /\
    twitter (run rootText bot os) = twitter bot /\
    Forall (fun change =>
              snd (on_recentchange rootText bot change) = Normal tt)
           (events os).
Proof.
  assert (forall b, pages b = [] ->
                    forall change,
                      on_recentchange rootText b change = (b, Normal tt))
    as Hskip.
  { intros b Hb change. unfold on_recentchange.
    rewrite classify_early_return; [reflexivity|].
    right. right. rewrite Hb. intros []. }
  induction os as [|o os IH]; intros bot Hp Hno.
  - cbn [run fold_left events flat_map].
    split; [assumption | split; [reflexivity | constructor]].
  - cbn [run fold_left]. fold (run rootText (occur rootText bot o) os).
    assert (forall queries, ~ In (RefreshAnswered queries) os) as Hno'
        by (intros queries Hin; apply (Hno queries); now right).
    assert (Forall (fun change =>
                      snd (on_recentchange rootText bot change) = Normal tt)
                   (events (o :: os))) as HF.
    { apply Forall_forall. intros change _. now rewrite Hskip. }
    destruct o as [|queries|change].
    + destruct (IH (getPages_begin bot) Hp Hno') as (H1 & H2 & _).
      cbn [occur]. now repeat split.
    + exfalso. apply (Hno queries). now left.
    + cbn [occur]. rewrite Hskip by assumption. cbn [fst].
      destruct (IH bot Hp Hno') as (H1 & H2 & _). now repeat split.
Qed.

End Listener.

(** *** The store of RegExp objects *)

Lemma deref_middle (pre post : store) (R : RegExp) :
  deref (pre ++ R :: post) (length pre) = R.
Proof.
  unfold deref. rewrite app_nth2, Nat.sub_diag by lia. reflexivity.
Qed.

Lemma assign_middle (pre post : store) (R R' : RegExp) :
  assign (pre ++ R :: post) (length pre) R' = pre ++ R' :: post.
Proof.
  induction pre as [|x pre IH]; cbn [app length assign];
    [reflexivity | now rewrite IH].
Qed.

Lemma length_assign (h : store) :
  forall r R, length (assign h r R) = length h.
Proof.
  induction h as [|x h IH]; intros [|r] R; cbn [assign length];
    try reflexivity.
  now rewrite IH.
Qed.

Lemma deref_assign_other (h : store) :
  forall r r' R, r <> r' -> deref (assign h r' R) r = deref h r.
Proof.
  unfold deref.
  induction h as [|x h IH]; intros [|r] [|r'] R Hne; cbn [assign nth];
    try reflexivity; try congruence.
  apply IH. congruence.
Qed.

Lemma deref_app (h h' : store) (r : reference) :
  r < length h -> deref (h ++ h') r = deref h r.
Proof. intros H. unfold deref. now apply app_nth1. Qed.

(** A test changes the object it is called on, and no other. *)
Lemma test_at_middle (pre post : store) (R : RegExp) (s : jsstring) :
  test_at (pre ++ R :: post) (length pre) s =
  (pre ++ snd (RegExp_test R s) :: post, fst (RegExp_test R s)).
Proof.
  unfold test_at. rewrite deref_middle.
  destruct (RegExp_test R s) as [b R']. now rewrite assign_middle.
Qed.

Lemma allocate_all_seq (Rs : list RegExp) :
  forall h, allocate_all h Rs = (h ++ Rs, seq (length h) (length Rs)).
Proof.
  induction Rs as [|R Rs IH]; intros h; cbn [allocate_all allocate].
  - now rewrite app_nil_r.
  - rewrite IH, length_app, Nat.add_1_r, <- app_assoc. reflexivity.
Qed.

Lemma Array_some_test_length (a : list RegExp) (s : jsstring) :
  length (snd (Array_some_test a s)) = length a.
Proof.
  induction a as [|v a IH]; [reflexivity|].
  cbn [Array_some_test]. destruct (RegExp_test v s) as [[|] v'];
    [reflexivity|].
  destruct (Array_some_test a s) as [b' a'']. cbn [snd length] in *.
  now rewrite IH.
Qed.

(** [some] over the references of an array that lies in the store does
    to the objects what [Array_some_test] does to the array. *)
Lemma some_test_at_seq (Rs : list RegExp) (s : jsstring) :
  forall pre post,
    some_test_at (pre ++ Rs ++ post) (seq (length pre) (length Rs)) s =
    (pre ++ snd (Array_some_test Rs s) ++ post,
     fst (Array_some_test Rs s)).
Proof.
  induction Rs as [|R Rs IH]; intros pre post; [reflexivity|].
  cbn [length seq some_test_at app Array_some_test].
  rewrite test_at_middle.
  destruct (RegExp_test R s) as [[|] R']; cbn [fst snd]; [reflexivity|].
  specialize (IH (pre ++ [R']) post).
  rewrite length_app, Nat.add_1_r, <- !app_assoc in IH. cbn [app] in IH.
  rewrite IH. destruct (Array_some_test Rs s) as [b' a''].
  reflexivity.
Qed.

Lemma map_deref_seq (Rs : list RegExp) :
  forall pre post,
    map (deref (pre ++ Rs ++ post)) (seq (length pre) (length Rs)) = Rs.
Proof.
  induction Rs as [|R Rs IH]; intros pre post; [reflexivity|].
  cbn [length seq map app]. rewrite deref_middle. f_equal.
  specialize (IH (pre ++ [R]) post).
  rewrite length_app, Nat.add_1_r, <- !app_assoc in IH. exact IH.
Qed.

(** The strip loop creates its own objects: what it leaves of the text
    depends on the source and the flags of the signatures only. *)
Lemma strip_signatures_value (sigs : list reference) :
  forall h acc,
    (forall r, In r sigs -> r < length h) ->
    snd (Wire.strip_signatures h sigs acc) =
    fold_left
      (fun acc sig =>
         String_replace acc
           (new_RegExp (source sig) (global sig) (ignoreCase sig)) [])
      (map (deref h) sigs) acc.
Proof.
  induction sigs as [|sig sigs IH]; intros h acc Hin; [reflexivity|].
  cbn [Wire.strip_signatures allocate map fold_left].
  unfold replace_at. rewrite deref_middle.
  cbn [global new_RegExp].
  set (fresh := new_RegExp (source (deref h sig)) (global (deref h sig))
                           (ignoreCase (deref h sig))).
  set (h2 := if global (deref h sig)
             then assign (h ++ [fresh]) (length h) (set_lastIndex fresh 0)
             else h ++ [fresh]).
  assert (length h2 = S (length h)) as Hlen.
  { subst h2. destruct (global _);
      rewrite ?length_assign, length_app, Nat.add_1_r; reflexivity. }
  assert (forall r, r < length h -> deref h2 r = deref h r) as Hsame.
  { intros r Hr. subst h2. destruct (global _);
      rewrite ?deref_assign_other by lia; now apply deref_app. }
  rewrite IH.
  - f_equal. apply map_ext_in. intros r Hr. apply Hsame, Hin. now right.
  - intros r Hr. rewrite Hlen. specialize (Hin r (or_intror Hr)). lia.
Qed.

(** *** The listener on the records as they arrive *)

Section WireListener.

Variable rootText : jsstring -> jsstring.
Variable loadOther : value -> completion jsstring.

(** What the listener decides, read off without the store: every
    pattern it tests or replaces with is an object it has just
    created. *)
Lemma classify_value (h : store) (monitored : list jsstring)
    (c : Wire.change) :
  snd (Wire.classify rootText loadOther h monitored c) =
  if negb (strictly_equals (Wire.wiki c) (js "enwiki")) ||
     negb (strictly_equals (Wire.type c) (js "edit"))
  then Normal NotQualifying
  else if negb (Array_includes_value monitored (Wire.title c))
  then Normal NotQualifying
  else
    match Wire.comment c with
    | VString text =>
        if String_includes text (js "([[WP:HG|HG]])") ||
           strictly_equals (Wire.user c) (js "ClueBot NG")
        then Normal NotQualifying
        else if fst (RegExp_test vandalism_keywords text)
        then Normal NotQualifying
        else
          match Wire.load_text rootText loadOther (Wire.parsedcomment c) with
          | Throw e => Throw e
          | Normal summary =>
              if fst (Array_some_test signatures summary)
              then Normal (Qualifying (stripAll summary))
              else Normal NotQualifying
          end
    | _ => Throw TypeError
    end.
Proof.
  unfold Wire.classify.
  destruct (_ || _); [reflexivity|].
  destruct (negb _); [reflexivity|].
  destruct (Wire.comment c) as [| |b|n|text]; try reflexivity.
  destruct (_ || _); [reflexivity|].
  cbn [allocate]. rewrite test_at_middle.
  destruct (fst (RegExp_test vandalism_keywords text)); [reflexivity|].
  destruct (Wire.load_text rootText loadOther (Wire.parsedcomment c)) as [summary|e];
    [|reflexivity].
  rewrite allocate_all_seq.
  set (pre := h ++ [snd (RegExp_test vandalism_keywords text)]).
  rewrite <- (app_nil_r signatures) at 1.
  rewrite some_test_at_seq.
  pose proof (strippedSummary_after_some signatures summary summary) as E.
  pose proof (Array_some_test_length signatures summary) as L.
  destruct (Array_some_test signatures summary) as [[|] sigs];
    cbn [fst snd negb] in *; [|reflexivity].
  rewrite <- L.
  pose proof (strip_signatures_value (seq (length pre) (length sigs))
                (pre ++ sigs ++ []) summary) as V.
  rewrite map_deref_seq in V.
  destruct (Wire.strip_signatures _ _ summary) as [h5 stripped].
  cbn [snd] in V. cbn [allocate]. unfold replace_at.
  rewrite deref_middle. cbn [snd]. unfold stripAll. rewrite <- E.
  unfold strippedSummary. rewrite <- V; [reflexivity|].
  intros r Hr. apply in_seq in Hr. rewrite !length_app. lia.
Qed.

Lemma reaches_comment_checks (monitored : list jsstring) (c : Wire.change) :
  Wire.reaches_comment monitored c <->
  negb (strictly_equals (Wire.wiki c) (js "enwiki")) ||
  negb (strictly_equals (Wire.type c) (js "edit")) = false /\
  Array_includes_value monitored (Wire.title c) = true.
Proof.
  unfold Wire.reaches_comment. split.
  - intros (-> & -> & t & -> & Hin). split; [reflexivity|].
    now apply Array_includes_In.
  - intros [H1 H2]. apply orb_false_iff in H1 as [Hw Ht].
    apply negb_false_iff in Hw, Ht.
    destruct (Wire.wiki c) as [| | | |w]; try discriminate.
    destruct (Wire.type c) as [| | | |ty]; try discriminate.
    destruct (Wire.title c) as [| | | |t]; try discriminate.
    cbn [strictly_equals Array_includes_value] in *.
    apply str_eqb_eq in Hw, Ht. apply Array_includes_In in H2. subst.
    repeat split. now exists t.
Qed.

(** An event that does not pass lines 68 to 71 is left at once: no
    object is created. *)
Lemma classify_skipped (h : store) (monitored : list jsstring)
    (c : Wire.change) :
  ~ Wire.reaches_comment monitored c ->
  Wire.classify rootText loadOther h monitored c = (h, Normal NotQualifying).
Proof.
  intros H. unfold Wire.classify.
  destruct (_ || _) eqn:E1; [reflexivity|].
  destruct (Array_includes_value monitored (Wire.title c)) eqn:E2;
    [|reflexivity].
  exfalso. apply H, reaches_comment_checks. now split.
Qed.

Lemma classify_reached (h : store) (monitored : list jsstring)
    (c : Wire.change) :
  Wire.reaches_comment monitored c ->
  snd (Wire.classify rootText loadOther h monitored c) =
  match Wire.comment c with
  | VString text =>
      if String_includes text (js "([[WP:HG|HG]])") ||
         strictly_equals (Wire.user c) (js "ClueBot NG")
      then Normal NotQualifying
      else if fst (RegExp_test vandalism_keywords text)
      then Normal NotQualifying
      else
        match Wire.load_text rootText loadOther (Wire.parsedcomment c) with
        | Throw e => Throw e
        | Normal summary =>
            if fst (Array_some_test signatures summary)
            then Normal (Qualifying (stripAll summary))
            else Normal NotQualifying
        end
  | _ => Throw TypeError
  end.
Proof.
  intros H. rewrite classify_value.
  apply reaches_comment_checks in H as [-> ->]. reflexivity.
Qed.

(** What the listener does once the event is classified. *)
Lemma on_recentchange_outcome (h : store) (bot : Bot) (c : Wire.change) :
  match snd (Wire.classify rootText loadOther h (pages bot) c) with
  | Throw e =>
      snd (fst (Wire.on_recentchange rootText loadOther h bot c)) = bot /\
      snd (Wire.on_recentchange rootText loadOther h bot c) = Throw e
  | Normal NotQualifying =>
      snd (fst (Wire.on_recentchange rootText loadOther h bot c)) = bot /\
      snd (Wire.on_recentchange rootText loadOther h bot c) = Normal tt
  | Normal (Qualifying _) =>
      match Wire.revision c with
      | None =>
          snd (fst (Wire.on_recentchange rootText loadOther h bot c)) = bot /\
          snd (Wire.on_recentchange rootText loadOther h bot c) =
          Throw TypeError
      | Some _ =>
          pages (snd (fst (Wire.on_recentchange rootText loadOther h bot c)))
          = pages bot /\
          snd (Wire.on_recentchange rootText loadOther h bot c) = Normal tt
      end
  end.
Proof.
  unfold Wire.on_recentchange.
  destruct (Wire.classify rootText loadOther h (pages bot) c)
    as [h' [[|r]|e]]; cbn [fst snd]; try (split; reflexivity).
  destruct (Wire.revision c); split; reflexivity.
Qed.

(** A qualifying event has a summary: the library has given a text for
    its rendered comment. *)
Lemma qualifying_has_summary (h : store) (monitored : list jsstring)
    (c : Wire.change) (r : jsstring) :
  snd (Wire.classify rootText loadOther h monitored c) =
    Normal (Qualifying r) ->
  exists summary,
    Wire.load_text rootText loadOther (Wire.parsedcomment c) =
      Normal summary /\
    fst (Array_some_test signatures summary) = true /\
    r = stripAll summary.
Proof.
  rewrite classify_value.
  destruct (_ || _); [discriminate|].
  destruct (negb _); [discriminate|].
  destruct (Wire.comment c) as [| |b|n|text]; try discriminate.
  destruct (_ || _); [discriminate|].
  destruct (fst (RegExp_test vandalism_keywords text)); [discriminate|].
  destruct (Wire.load_text rootText loadOther (Wire.parsedcomment c))
    as [summary|e]; [|discriminate].
  destruct (fst (Array_some_test signatures summary)) eqn:E;
    [|discriminate].
  intros H. injection H as <-. now exists summary.
Qed.

Lemma wire_on_recentchange_pages (h : store) (bot : Bot) (c : Wire.change) :
  pages (snd (fst (Wire.on_recentchange rootText loadOther h bot c))) =
  pages bot.
Proof.
  pose proof (on_recentchange_outcome h bot c) as H.
  destruct (snd (Wire.classify rootText loadOther h (pages bot) c))
    as [[|r]|e]; [| destruct (Wire.revision c) |];
    destruct H as [H _]; now rewrite H.
Qed.

Lemma wire_emit_all_pages (changes : list Wire.change) :
  forall h bot,
    pages (snd (Wire.emit_all rootText loadOther h bot changes)) = pages bot.
Proof.
  unfold Wire.emit_all.
  induction changes as [|c changes IH]; intros h bot; [reflexivity|].
  cbn [fold_left fst snd].
  destruct (Wire.on_recentchange rootText loadOther h bot c)
    as [[h' bot'] r] eqn:E.
  cbn [fst]. rewrite IH.
  pose proof (wire_on_recentchange_pages h bot c) as P.
  now rewrite E in P.
Qed.

(** C9. Classification reads the event and the monitored pages only.
    Every pattern the listener tests is an object it has created in the
    same call, so what the calls before have left in the store, with
    whatever [lastIndex], does not reach it: after any events, handled
    from any store, an event is classified, and the listener completes,
    as from any other store. *)
Theorem classification_carries_no_state (h h0 : store) (bot : Bot)
    (changes : list Wire.change) (c : Wire.change) :
  snd (Wire.classify rootText loadOther
         (fst (Wire.emit_all rootText loadOther h bot changes))
         (pages (snd (Wire.emit_all rootText loadOther h bot changes))) c) =
  snd (Wire.classify rootText loadOther h0 (pages bot) c) /\
  snd (Wire.on_recentchange rootText loadOther
         (fst (Wire.emit_all rootText loadOther h bot changes))
         (snd (Wire.emit_all rootText loadOther h bot changes)) c) =
  snd (Wire.on_recentchange rootText loadOther h0 bot c).
Proof.
  assert (snd (Wire.classify rootText loadOther
                 (fst (Wire.emit_all rootText loadOther h bot changes))
                 (pages (snd (Wire.emit_all rootText loadOther h bot changes)))
                 c) =
          snd (Wire.classify rootText loadOther h0 (pages bot) c)) as E
      by now rewrite !classify_value, wire_emit_all_pages.
  split; [exact E|].
  pose proof (on_recentchange_outcome
                (fst (Wire.emit_all rootText loadOther h bot changes))
                (snd (Wire.emit_all rootText loadOther h bot changes)) c) as H1.
  pose proof (on_recentchange_outcome h0 bot c) as H2.
  rewrite E in H1.
  destruct (snd (Wire.classify rootText loadOther h0 (pages bot) c))
    as [[|r]|e]; [| destruct (Wire.revision c) |];
    destruct H1 as [_ ->]; destruct H2 as [_ ->]; reflexivity.
Qed.

(** An event that passes lines 68 to 71 with a comment that is no
    string. *)
Lemma comment_not_string_raises (h : store) (bot : Bot) (c : Wire.change) :
  Wire.reaches_comment (pages bot) c ->
  (forall text, Wire.comment c <> VString text) ->
  snd (fst (Wire.on_recentchange rootText loadOther h bot c)) = bot /\
  snd (Wire.on_recentchange rootText loadOther h bot c) = Throw TypeError.
Proof.
  intros Hr Hc. pose proof (on_recentchange_outcome h bot c) as H.
  rewrite (classify_reached h _ c Hr) in H.
  destruct (Wire.comment c) as [| |b|n|text]; try exact H.
  now destruct (Hc text).
Qed.

(** An event on whose rendered comment the library raises. *)
Lemma load_raises (h : store) (bot : Bot) (c : Wire.change)
    (text : jsstring) (e : exception) :
  Wire.reaches_comment (pages bot) c ->
  Wire.comment c = VString text ->
  String_includes text (js "([[WP:HG|HG]])") = false ->
  strictly_equals (Wire.user c) (js "ClueBot NG") = false ->
  fst (RegExp_test vandalism_keywords text) = false ->
  Wire.load_text rootText loadOther (Wire.parsedcomment c) = Throw e ->
  snd (fst (Wire.on_recentchange rootText loadOther h bot c)) = bot /\
  snd (Wire.on_recentchange rootText loadOther h bot c) = Throw e.
Proof.
  intros Hr Hc H1 H2 H3 H4.
  pose proof (on_recentchange_outcome h bot c) as H.
  rewrite (classify_reached h _ c Hr), Hc, H1, H2, H3, H4 in H. exact H.
Qed.

(** A qualifying event without revision. *)
Lemma revision_missing_raises (h : store) (bot : Bot) (c : Wire.change)
    (r : jsstring) :
  snd (Wire.classify rootText loadOther h (pages bot) c) =
    Normal (Qualifying r) ->
  Wire.revision c = None ->
  snd (fst (Wire.on_recentchange rootText loadOther h bot c)) = bot /\
  snd (Wire.on_recentchange rootText loadOther h bot c) = Throw TypeError.
Proof.
  intros Hq Hrev. pose proof (on_recentchange_outcome h bot c) as H.
  now rewrite Hq, Hrev in H.
Qed.

Lemma skipped_completes (h : store) (bot : Bot) (c : Wire.change) :
  ~ Wire.reaches_comment (pages bot) c ->
  snd (fst (Wire.on_recentchange rootText loadOther h bot c)) = bot /\
  snd (Wire.on_recentchange rootText loadOther h bot c) = Normal tt.
Proof.
  intros Hr. pose proof (on_recentchange_outcome h bot c) as H.
  now rewrite (classify_skipped h _ c Hr) in H.
Qed.

(** An event with the fields the listener uses, of the types it expects. *)
Lemma well_formed_completes (h : store) (bot : Bot) (c : Wire.change) :
  (exists text, Wire.comment c = VString text) ->
  (exists html, Wire.parsedcomment c = VString html) ->
  Wire.revision c <> None ->
  snd (Wire.on_recentchange rootText loadOther h bot c) = Normal tt.
Proof.
  intros [text Hc] [html Hp] Hrev.
  pose proof (on_recentchange_outcome h bot c) as H.
  rewrite classify_value, Hc, Hp in H. cbn [Wire.load_text] in H.
  repeat match type of H with
         | context [if ?b then _ else _] => destruct b
         end; solve [exact (proj2 H) | congruence].
Qed.

(** C5, as the code has it.  The listener has no error handling of its
    own: what is raised while an event is handled leaves the listener.
    An event that the first checks reject is passed over without error,
    whatever its other fields, and so is handled every event whose
    comment and rendered comment are strings and whose revision is
    present.  For an event that passes the first checks, a comment that
    is no string raises a TypeError, an error that the library raises on
    the rendered comment leaves the listener as it is, and so does the
    TypeError for the missing revision of a qualifying event; each time
    the bot is left as it was. *)
Theorem listener_has_no_error_handling (h : store) (bot : Bot)
    (c : Wire.change) :
  (~ Wire.reaches_comment (pages bot) c ->
   snd (fst (Wire.on_recentchange rootText loadOther h bot c)) = bot /\
   snd (Wire.on_recentchange rootText loadOther h bot c) = Normal tt) /\
  ((exists text, Wire.comment c = VString text) ->
   (exists html, Wire.parsedcomment c = VString html) ->
   Wire.revision c <> None ->
   snd (Wire.on_recentchange rootText loadOther h bot c) = Normal tt) /\
  (Wire.reaches_comment (pages bot) c ->
   (forall text, Wire.comment c <> VString text) ->
   snd (fst (Wire.on_recentchange rootText loadOther h bot c)) = bot /\
   snd (Wire.on_recentchange rootText loadOther h bot c) = Throw TypeError) /\
  (forall text e,
      Wire.reaches_comment (pages bot) c ->
      Wire.comment c = VString text ->
      String_includes text (js "([[WP:HG|HG]])") = false ->
      strictly_equals (Wire.user c) (js "ClueBot NG") = false ->
      fst (RegExp_test vandalism_keywords text) = false ->
      Wire.load_text rootText loadOther (Wire.parsedcomment c) = Throw e ->
      snd (fst (Wire.on_recentchange rootText loadOther h bot c)) = bot /\
      snd (Wire.on_recentchange rootText loadOther h bot c) = Throw e) /\
  (forall r,
      snd (Wire.classify rootText loadOther h (pages bot) c) =
        Normal (Qualifying r) ->
      Wire.revision c = None ->
      snd (fst (Wire.on_recentchange rootText loadOther h bot c)) = bot /\
      snd (Wire.on_recentchange rootText loadOther h bot c) = Throw TypeError).
Proof.
  split; [apply skipped_completes|].
  split; [apply well_formed_completes|].
  split; [apply comment_not_string_raises|].
  split; [intros text e; apply load_raises | apply revision_missing_raises].
Qed.

(** X14. The listener raises in three cases and no other, all of them
    for an event that passes the first checks: its comment is no string
    (a TypeError, line 73); its comment passes the checks of lines 73 to
    76 and the library raises on its rendered comment (that error, line
    78); it qualifies and its revision is missing (a TypeError, line
    105).  Whenever the listener raises, the bot is left as it was:
    nothing is logged and nothing is sent. *)
Theorem listener_raises_iff (h : store) (bot : Bot) (c : Wire.change)
    (e : exception) :
  (snd (Wire.on_recentchange rootText loadOther h bot c) = Throw e <->
   Wire.reaches_comment (pages bot) c /\
   ((forall text, Wire.comment c <> VString text) /\ e = TypeError \/
    (exists text,
        Wire.comment c = VString text /\
        String_includes text (js "([[WP:HG|HG]])") = false /\
        strictly_equals (Wire.user c) (js "ClueBot NG") = false /\
        fst (RegExp_test vandalism_keywords text) = false /\
        Wire.load_text rootText loadOther (Wire.parsedcomment c) = Throw e) \/
    (exists r,
        snd (Wire.classify rootText loadOther h (pages bot) c) =
          Normal (Qualifying r)) /\
    Wire.revision c = None /\ e = TypeError)) /\
  (snd (Wire.on_recentchange rootText loadOther h bot c) = Throw e ->
   snd (fst (Wire.on_recentchange rootText loadOther h bot c)) = bot).
Proof.
  assert (forall text, Wire.comment c = VString text ->
            ~ (forall text', Wire.comment c <> VString text')) as Hstr
      by (intros text Hc H; exact (H text Hc)).
  pose proof (on_recentchange_outcome h bot c) as H.
  destruct (reaches_comment_checks (pages bot) c) as [R1 R2].
  destruct (negb (strictly_equals (Wire.wiki c) (js "enwiki")) ||
            negb (strictly_equals (Wire.type c) (js "edit"))) eqn:E1;
    [|destruct (Array_includes_value (pages bot) (Wire.title c)) eqn:E2].
  1, 3: assert (~ Wire.reaches_comment (pages bot) c) as Hn
      by (intros Hr; destruct (R1 Hr); congruence);
    rewrite (classify_skipped h _ c Hn) in H; cbn [snd] in H;
    destruct H as [Hb ->];
    (split; [split; [discriminate | intros [Hr _]; now destruct Hn]
            | discriminate]).
  specialize (R2 (conj eq_refl eq_refl)). clear R1.
  pose proof (classify_reached h _ c R2) as V. rewrite V in H.
  destruct (Wire.comment c) as [| |b|n|text] eqn:Ec.
  1-4: destruct H as [Hb ->];
    (split; [|now intros _]); split;
    [ intros He; injection He as <-; split; [assumption|];
      left; split; [discriminate | reflexivity]
    | intros (_ & [[_ ->] | [(text & Ht & _) | (_ & _ & ->)]]);
      solve [reflexivity | discriminate Ht] ].
  specialize (Hstr text eq_refl).
  destruct (String_includes text (js "([[WP:HG|HG]])")) eqn:E3;
    cbn [orb] in *.
  { destruct H as [Hb ->]. rewrite V. split; [|discriminate].
    split; [discriminate|].
    intros (_ & [[Hc _] | [(t & Ht & Hi & _) | ((r & Hq) & _)]]);
      [now destruct Hstr | | discriminate Hq].
    injection Ht as <-. congruence. }
  destruct (strictly_equals (Wire.user c) (js "ClueBot NG")) eqn:E4.
  { destruct H as [Hb ->]. rewrite V. split; [|discriminate].
    split; [discriminate|].
    intros (_ & [[Hc _] | [(t & Ht & _ & Hu & _) | ((r & Hq) & _)]]);
      [now destruct Hstr | discriminate Hu | discriminate Hq]. }
  destruct (fst (RegExp_test vandalism_keywords text)) eqn:E5.
  { destruct H as [Hb ->]. rewrite V. split; [|discriminate].
    split; [discriminate|].
    intros (_ & [[Hc _] | [(t & Ht & _ & _ & Hk & _) | ((r & Hq) & _)]]);
      [now destruct Hstr | | discriminate Hq].
    injection Ht as <-. congruence. }
  destruct (Wire.load_text rootText loadOther (Wire.parsedcomment c))
    as [summary|e0] eqn:E6.
  - destruct (fst (Array_some_test signatures summary)) eqn:E7.
    + destruct (Wire.revision c) as [new|] eqn:E8.
      * destruct H as [Hb ->]. rewrite V. split; [|discriminate].
        split; [discriminate|].
        intros (_ & [[Hc _] | [(t & _ & _ & _ & _ & Hl) | (_ & Hrev & _)]]);
          [now destruct Hstr | discriminate Hl | discriminate Hrev].
      * destruct H as [Hb ->]. rewrite V. split; [|now intros _].
        split.
        -- intros He. injection He as <-. split; [assumption|].
           right. right. split; [now eexists | now split].
        -- intros (_ & [[Hc _] | [(t & _ & _ & _ & _ & Hl) | (_ & _ & ->)]]);
             [now destruct Hstr | discriminate Hl | reflexivity].
    + destruct H as [Hb ->]. rewrite V. split; [|discriminate].
      split; [discriminate|].
      intros (_ & [[Hc _] | [(t & _ & _ & _ & _ & Hl) | ((r & Hq) & _)]]);
        [now destruct Hstr | discriminate Hl | discriminate Hq].
  - destruct H as [Hb ->]. rewrite V. split; [|now intros _].
    split.
    + intros He. injection He as <-. split; [assumption|].
      right. left. exists text. now repeat split.
    + intros (_ & [[Hc _] | [(t & _ & _ & _ & _ & Hl) | ((r & Hq) & _)]]);
        [now destruct Hstr | congruence | discriminate Hq].
Qed.

(** On a record with the fields of the types of the schema, the
    listener decides and does what [classify] and [on_recentchange]
    describe. *)
Lemma classify_of_RecentChange (h : store) (monitored : list jsstring)
    (change : RecentChange) :
  snd (Wire.classify rootText loadOther h monitored
         (Wire.of_RecentChange change)) =
  classify rootText monitored change.
Proof.
  rewrite classify_value. destruct change as [w ty ti u co pc rev].
  unfold classify.
  cbn [Wire.of_RecentChange Wire.wiki Wire.type Wire.title Wire.user
       Wire.comment Wire.parsedcomment strictly_equals Array_includes_value
       Wire.load_text wiki type title user comment parsedcomment].
  destruct (_ || _); [reflexivity|].
  destruct (negb _); [reflexivity|].
  destruct co as [text|]; [|reflexivity].
  destruct (_ || _); [reflexivity|].
  destruct (fst (RegExp_test vandalism_keywords text)); [reflexivity|].
  pose proof (strippedSummary_after_some signatures (rootText pc)
                (rootText pc)) as E.
  destruct (Array_some_test signatures (rootText pc)) as [[|] sigs];
    cbn [fst snd negb] in *; [|reflexivity].
  unfold stripAll. now rewrite E.
Qed.

Lemma on_recentchange_of_RecentChange (h : store) (bot : Bot)
    (change : RecentChange) :
  (snd (fst (Wire.on_recentchange rootText loadOther h bot
               (Wire.of_RecentChange change))),
   snd (Wire.on_recentchange rootText loadOther h bot
          (Wire.of_RecentChange change))) =
  on_recentchange rootText bot change.
Proof.
  pose proof (classify_of_RecentChange h (pages bot) change) as E.
  unfold Wire.on_recentchange, on_recentchange.
  destruct (Wire.classify rootText loadOther h (pages bot)
              (Wire.of_RecentChange change)) as [h' r].
  cbn [snd] in E. rewrite <- E.
  destruct r as [[|stripped]|e]; try reflexivity.
  destruct change as [w ty ti u co pc [rev|]]; reflexivity.
Qed.

End WireListener.

(** *** The sample events *)
Import Samples.

Ltac plain_closed := split; apply notin_existsb; reflexivity.

Lemma notification_within_budget_witness :
  exists text,
    twitter (fst (on_recentchange plainText bot0 undo_with_reason)) =
      twitter bot0 ++ [text] /\
    length text + 24 <= 280 + length (diff_link 1000).
Proof.
  apply (notification_within_budget plainText bot0 undo_with_reason
           (js "unsourced") 1000).
  - vm_compute; reflexivity.
  - reflexivity.
  - plain_closed.
  - plain_closed.
  - plain_closed.
  - reflexivity.
  - reflexivity.
  - vm_compute. lia.
Defined.

(** C1 does not hold of the text itself: an undo with a reason of 300
    characters yields a text of 303, the link having 47 characters. *)
Lemma long_reason_exceeds_280 :
  classify plainText (pages bot0) undo_with_long_reason =
    Normal (Qualifying long_reason) /\
  twitter (fst (on_recentchange plainText bot0 undo_with_long_reason)) =
    [tweet_text (js "Alice") (js "Hurricane Katrina") 1000 long_reason] /\
  length (tweet_text (js "Alice") (js "Hurricane Katrina") 1000 long_reason)
    = 303 /\
  ~ length (tweet_text (js "Alice") (js "Hurricane Katrina") 1000 long_reason)
    <= 280.
Proof.
  assert (length (tweet_text (js "Alice") (js "Hurricane Katrina") 1000
                    long_reason) = 303) as E by (vm_compute; reflexivity).
  repeat split; try (vm_compute; reflexivity).
  rewrite E. lia.
Qed.

Lemma rollback_reason_keeps_separator_witness :
  classify plainText monitored rollback_with_reason =
  Normal (Qualifying (js ": unsourced claim")).
Proof.
  apply (rollback_reason_keeps_separator plainText monitored
           rollback_with_reason).
  - reflexivity.
  - reflexivity.
  - left. reflexivity.
  - apply str_eqb_neq. reflexivity.
  - reflexivity.
  - reflexivity.
Defined.

(** C2 does not hold: the reason is not "unsourced claim". *)
Lemma rollback_reason_not_trimmed :
  wiki rollback_with_reason = js "enwiki" /\
  type rollback_with_reason = js "edit" /\
  In (title rollback_with_reason) monitored /\
  comment rollback_with_reason =
    Some (js "Reverted 1 edit by Foo (talk) to last version by Bar (talk): unsourced claim") /\
  classify plainText monitored rollback_with_reason <>
    Normal (Qualifying (js "unsourced claim")).
Proof.
  repeat split; try reflexivity; [now left|].
  intros H. vm_compute in H. discriminate H.
Qed.



Lemma long_reason_truncated_witness :
  exists text,
    twitter (fst (on_recentchange plainText bot0 undo_with_long_reason)) =
      twitter bot0 ++ [text] /\
    text =
      js "New revert by " ++ user undo_with_long_reason ++ js " on " ++
      [dquote] ++ title undo_with_long_reason ++ [dquote] ++ js ": " ++
      [dquote] ++
      firstn (231 - length (user undo_with_long_reason) -
              length (title undo_with_long_reason)) long_reason ++
      [dquote] ++ js " " ++ diff_link 1000 /\
    length text = 256 + length (diff_link 1000).
Proof.
  apply (long_reason_truncated plainText bot0 undo_with_long_reason
           long_reason 1000).
  - vm_compute; reflexivity.
  - reflexivity.
  - reflexivity.
  - plain_closed.
  - plain_closed.
  - plain_closed.
  - reflexivity.
  - reflexivity.
  - vm_compute. lia.
Defined.

(** C4 does not hold: with a reason of 300 characters the text has 303
    characters, not 280. *)
Lemma long_reason_not_280 :
  length long_reason = 300 /\
  classify plainText (pages bot0) undo_with_long_reason =
    Normal (Qualifying long_reason) /\
  length (tweet_text (user undo_with_long_reason)
            (title undo_with_long_reason) 1000 long_reason) <> 280.
Proof.
  repeat split; try (vm_compute; reflexivity).
  vm_compute. discriminate.
Qed.

(** C5 does not hold: an edit of a monitored page without a comment
    makes the listener raise a TypeError, which nothing catches. *)
Lemma missing_comment_throws :
  snd (on_recentchange plainText bot0 edit_without_comment) = Throw TypeError /\
  snd (on_recentchange plainText bot0 edit_without_comment) <> Normal tt.
Proof.
  split; [reflexivity|]. vm_compute. discriminate.
Qed.

(** The listener on a comment that is a number, on a rendered comment
    that is missing, with a library that raises on it, and on the undo
    of the samples. *)
Lemma listener_has_no_error_handling_witness :
  snd (Wire.on_recentchange plainText strictLoad [] bot0
         edit_with_numeric_comment) = Throw TypeError /\
  snd (Wire.on_recentchange plainText strictLoad [] bot0
         edit_without_parsedcomment) = Throw Error /\
  snd (Wire.on_recentchange plainText strictLoad [] bot0
         (Wire.of_RecentChange undo_with_reason)) = Normal tt.
Proof.
  assert (forall c,
             Wire.wiki c = VString (js "enwiki") ->
             Wire.type c = VString (js "edit") ->
             Wire.title c = VString (js "Hurricane Katrina") ->
             Wire.reaches_comment (pages bot0) c) as Hreach.
  { intros c H1 H2 H3. repeat split; try assumption.
    exists (js "Hurricane Katrina"). split; [assumption | now left]. }
  split; [|split].
  - apply (listener_has_no_error_handling plainText strictLoad [] bot0
             edit_with_numeric_comment);
      [now apply Hreach | discriminate].
  - apply (proj1 (proj2 (proj2 (proj2
             (listener_has_no_error_handling plainText strictLoad [] bot0
                edit_without_parsedcomment))))
             (js "Undid revision 12345 by Foo (talk)") Error);
      solve [now apply Hreach | reflexivity].
  - apply (listener_has_no_error_handling plainText strictLoad [] bot0
             (Wire.of_RecentChange undo_with_reason));
      [now eexists | now eexists | discriminate].
Defined.

(** A global pattern remembers where its last match has ended: the
    same object, asked twice about the same summary, answers true, then
    false. *)
Lemma kept_pattern_answers_differently :
  snd (test_at [new_RegExp sig_Undo true false] 0
         (js "Undid revision 12345 by Foo (talk)")) = true /\
  snd (test_at
         (fst (test_at [new_RegExp sig_Undo true false] 0
                 (js "Undid revision 12345 by Foo (talk)")))
         0 (js "Undid revision 12345 by Foo (talk)")) = false.
Proof. split; vm_compute; reflexivity. Qed.

(** The store after an undo has been handled: the object of the Undo
    signature is left with the end of its match. *)
Lemma store_after_undo :
  map lastIndex
      (firstn 3 (fst (Wire.emit_all plainText strictLoad [] bot0
                        [Wire.of_RecentChange undo_without_reason]))) =
  [0; 0; 34].
Proof. vm_compute. reflexivity. Qed.

Lemma undo_without_reason_empty_witness :
  classify plainText (pages bot0) undo_without_reason =
    Normal (Qualifying []) /\
  twitter (fst (on_recentchange plainText bot0 undo_without_reason)) =
  twitter bot0 ++
  [String_replace
     (String_replace
        (String_replace TWEET_TEXT_EMPTY re_user (user undo_without_reason))
        re_title (title undo_without_reason))
     re_diff (toString 1000)].
Proof.
  apply (undo_without_reason_empty plainText bot0 undo_without_reason 1000).
  - reflexivity.
  - reflexivity.
  - left. reflexivity.
  - apply str_eqb_neq. reflexivity.
  - reflexivity.
  - reflexivity.
  - reflexivity.
Defined.

Lemma classify_exempt_witness :
  classify plainText monitored huggle_revert = Normal NotQualifying.
Proof.
  apply (classify_exempt plainText monitored huggle_revert
           (js "Undid revision 12345 by Foo (talk) ([[WP:HG|HG]])")).
  - reflexivity.
  - left. reflexivity.
Defined.

Lemma classify_prefilter_witness :
  classify plainText monitored edit_elsewhere = Normal NotQualifying.
Proof.
  apply (classify_prefilter plainText monitored edit_elsewhere).
  right. right. intros H. apply Array_includes_In in H.
  vm_compute in H. discriminate H.
Defined.

Lemma twinkle_form_not_recognised_witness :
  classify plainText monitored twinkle_plain = Normal NotQualifying.
Proof.
  apply (twinkle_form_not_recognised plainText monitored twinkle_plain
           2 true (js "Foo") (js "unsourced")).
  - discriminate.
  - reflexivity.
  - reflexivity.
  - reflexivity.
  - reflexivity.
Defined.

(** C10 does not hold of every reason: "see talk" ends in " talk", the
    Twinkle signature matches the whole summary, and the event
    qualifies with the empty reason. *)
Lemma twinkle_see_talk_qualifies :
  parsedcomment twinkle_see_talk =
    twinkle_summary 2 true (js "Foo") (js "see talk") /\
  String_includes (parsedcomment twinkle_see_talk)
                  (js " to last version by ") = false /\
  classify plainText monitored twinkle_see_talk = Normal (Qualifying []) /\
  classify plainText monitored twinkle_see_talk <> Normal NotQualifying.
Proof.
  repeat split; try (vm_compute; reflexivity).
  vm_compute. discriminate.
Qed.

Lemma qualifying_reason_is_stripAll_witness :
  fst (Array_some_test signatures
         (plainText (parsedcomment undo_with_reason))) = true /\
  js "unsourced" = stripAll (plainText (parsedcomment undo_with_reason)).
Proof.
  apply (qualifying_reason_is_stripAll plainText monitored undo_with_reason).
  vm_compute; reflexivity.
Defined.

Lemma vandalism_keyword_rejected_witness :
  classify plainText monitored rollback_of_vandalism = Normal NotQualifying.
Proof.
  apply (vandalism_keyword_rejected plainText monitored rollback_of_vandalism
           (js "Reverted 1 edit by Foo (talk) to last version by Bar (talk): ")
           (js "Vand") (js "alism")).
  - reflexivity.
  - reflexivity.
Defined.

Lemma room_for_summary_witness :
  nonSummaryLength (js "Alice") (js "Hurricane Katrina") =
  (231 - Z.of_nat (length (js "Alice")) -
   Z.of_nat (length (js "Hurricane Katrina")))%Z.
Proof.
  apply (room_for_summary (js "Alice") (js "Hurricane Katrina")).
  - plain_closed.
  - plain_closed.
  - reflexivity.
  - reflexivity.
Defined.

Lemma undo_reason_extracted_witness :
  fst (Array_some_test signatures
         (undo_summary (js "12345") (js "Foo") (js "unsourced"))) = true /\
  stripAll (undo_summary (js "12345") (js "Foo") (js "unsourced")) =
  js "unsourced".
Proof.
  apply (undo_reason_extracted (js "12345") (js "Foo") (js "unsourced"));
    try reflexivity; try discriminate; apply notin_existsb; reflexivity.
Defined.

Lemma rollback_rest_kept_witness :
  fst (Array_some_test signatures
         (rollback_summary (js "1") false (js "Foo") (js "Bar")
            (js ": unsourced claim"))) = true /\
  stripAll (rollback_summary (js "1") false (js "Foo") (js "Bar")
              (js ": unsourced claim")) = js ": unsourced claim".
Proof.
  apply (rollback_rest_kept (js "1") false (js "Foo") (js "Bar")
           (js ": unsourced claim"));
    try reflexivity; try discriminate;
    try (apply notin_existsb; reflexivity).
  split; [discriminate | reflexivity].
Defined.

Lemma RedWarn_removes_one_character_witness :
  exists a c sep,
    js "Reverting edit(s) by A to rev. B 1 by CDE: reason" =
      a ++ js " by " ++ [c] ++ sep ++
      String_replace (js "Reverting edit(s) by A to rev. B 1 by CDE: reason")
        (new_RegExp sig_RedWarn true false) [] /\
    (sep = [] \/ sep = js ":" \/ sep = js ": ").
Proof.
  apply (RedWarn_removes_one_character
           (js "Reverting edit(s) by A to rev. B 1 by CDE: reason")).
  vm_compute. reflexivity.
Defined.

Lemma reason_shown_in_full_witness :
  tweet_text (js "Alice") (js "Hurricane Katrina") 1000 (js "unsourced") =
  js "New revert by " ++ js "Alice" ++ js " on " ++ [dquote] ++
  js "Hurricane Katrina" ++ [dquote] ++ js ": " ++ [dquote] ++
  js "unsourced" ++ [dquote] ++ js " " ++ diff_link 1000.
Proof.
  apply (reason_shown_in_full (js "Alice") (js "Hurricane Katrina") 1000
           (js "unsourced")).
  - discriminate.
  - plain_closed.
  - plain_closed.
  - plain_closed.
  - reflexivity.
  - reflexivity.
  - vm_compute. lia.
Defined.

Lemma reason_dropped_without_room_witness :
  tweet_text long_editor long_title 1000 (js "unsourced") =
  js "New revert by " ++ long_editor ++ js " on " ++ [dquote] ++
  long_title ++ [dquote] ++ js ": " ++ [dquote] ++ [dquote] ++
  js " " ++ diff_link 1000 /\
  tweet_text long_editor long_title 1000 (js "unsourced") <>
  tweet_text long_editor long_title 1000 [].
Proof.
  apply (reason_dropped_without_room long_editor long_title 1000
           (js "unsourced")).
  - discriminate.
  - plain_closed.
  - plain_closed.
  - plain_closed.
  - reflexivity.
  - reflexivity.
  - vm_compute. lia.
Defined.

Lemma no_reason_text_witness :
  tweet_text (js "Alice") (js "Hurricane Katrina") 1000 [] =
  js "New revert by " ++ js "Alice" ++ js " on " ++ [dquote] ++
  js "Hurricane Katrina" ++ [dquote] ++ js " with no given reason. " ++
  diff_link 1000.
Proof.
  apply (no_reason_text (js "Alice") (js "Hurricane Katrina") 1000);
    plain_closed.
Defined.

Lemma dollar_pair_collapses_witness :
  tweet_text (js "Alice") (js "Hurricane Katrina") 1000
    (js "costs " ++ js "$$" ++ js "5") =
  js "New revert by " ++ js "Alice" ++ js " on " ++ [dquote] ++
  js "Hurricane Katrina" ++ [dquote] ++ js ": " ++ [dquote] ++
  (js "costs " ++ js "$" ++ js "5") ++ [dquote] ++ js " " ++ diff_link 1000.
Proof.
  apply (dollar_pair_collapses (js "Alice") (js "Hurricane Katrina") 1000
           (js "costs ") (js "5")).
  - plain_closed.
  - plain_closed.
  - plain_closed.
  - plain_closed.
  - reflexivity.
  - reflexivity.
  - vm_compute. lia.
Defined.

Lemma getPages_membership_witness :
  In (js "Typhoon Haiyan") (pages (fst (getPages bot0 [index_response]))) <->
  exists q page rest ls l,
    In q [index_response] /\ query_pages q = Some (page :: rest) /\
    links page = Some ls /\ In l ls /\ link_title l = js "Typhoon Haiyan".
Proof.
  exact (getPages_membership bot0 [index_response] eq_refl
           (js "Typhoon Haiyan")).
Defined.

Lemma revert_keyword_rejected_witness :
  classify plainText monitored undo_of_rvv = Normal NotQualifying.
Proof.
  apply (revert_keyword_rejected plainText monitored undo_of_rvv
           (js "Undid revision 12345 by Foo (talk) ") (js "RVV") []).
  - reflexivity.
  - left. reflexivity.
Defined.

Lemma unlinked_page_passed_over_witness :
  on_recentchange plainText (fst (getPages bot0 [index_response]))
    edit_of_unlinked_page =
  (fst (getPages bot0 [index_response]), Normal tt).
Proof.
  apply (unlinked_page_passed_over plainText bot0 [index_response]
           edit_of_unlinked_page).
  - reflexivity.
  - intros q page rest ls [<- | []] H1 H2.
    injection H1 as <- <-. injection H2 as <-.
    intros H. vm_compute in H. intuition discriminate.
Defined.

Lemma nothing_sent_on_empty_page_list_witness :
  pages (run plainText (mkBot [] [] [])
           [RefreshStarts; Event undo_with_reason; Event edit_without_comment])
    = [] /\
  twitter (run plainText (mkBot [] [] [])
             [RefreshStarts; Event undo_with_reason;
              Event edit_without_comment]) = [] /\
  Forall (fun change =>
            snd (on_recentchange plainText (mkBot [] [] []) change) =
            Normal tt)
         (events [RefreshStarts; Event undo_with_reason;
                  Event edit_without_comment]).
Proof.
  apply (nothing_sent_on_empty_page_list plainText
           [RefreshStarts; Event undo_with_reason; Event edit_without_comment]
           (mkBot [] [] [])).
  - reflexivity.
  - intros queries [H | [H | [H | []]]]; discriminate H.
Defined.

End Properties.
